(** * GenericList/list.h : a shallow embedding of [List<T, Allocator>]

    The container owns one contiguous block of [capacity] slots, of which the
    first [count] hold live elements.  Objects of class [List] live in an
    object store and refer to their block by address, so that the identity
    tests and the aliasing of [this] and [other] in the assignment operators
    are those of the C++ code.  Every member function is a computation in a
    state monad over that store that may end normally, by a C++ exception, or
    by undefined behaviour (a fault). *)

From stdpp Require Import gmap strings list fin_maps.
From Stdlib Require Import NArith ZArith Lia.

Local Open Scope N_scope.

(** ** [size_t] arithmetic: 64 bits, wrapping *)

Definition SIZE_MOD : N := 2 ^ 64.
Definition PTRDIFF_MAX : N := 2 ^ 63 - 1.

Definition size_add (a b : N) : N := (a + b) mod SIZE_MOD.
Definition size_sub (a b : N) : N := (a + SIZE_MOD - b mod SIZE_MOD) mod SIZE_MOD.
Definition size_mul (a b : N) : N := (a * b) mod SIZE_MOD.

(** ** The two template parameters *)

(** What the container uses of its element type [T]: [operator==] (in [Find]
    and [Remove]), the state a move assignment leaves in its source, the text
    [operator<<] writes (in [Print]) and [sizeof(T)].  The copy constructor,
    the move assignment, the destructor and the comparison of [T] are those
    of a type for which they end normally, as for [int]; a constructor of [T]
    that throws is modelled where [Add] builds an element from arbitrary
    arguments ([Rejected] below) and where [Resize] copies the elements
    ([Resize_by] below). *)
Class Element (T : Type) := {
  elem_eqb : T -> T -> bool;
  moved_from : T -> T;
  show : T -> string;
  sizeof : positive
}.

(** What the container uses of its [Allocator]: [allocate(n)], which gives the
    allocator's next state or [None] when it throws [std::bad_alloc],
    [deallocate(p, n)], and the default constructor.  Moving or copying an
    allocator leaves the source unchanged (C++ Allocator requirements). *)
Class Allocator (A : Type) := {
  allocate : A -> N -> option A;
  deallocate : A -> N -> A;
  alloc_default : A
}.

(** ** Outcomes and the state monad *)

Inductive exn :=
  | out_of_range (index : N)
  | bad_alloc
  | element_exception.      (* thrown by a constructor of [T] *)

Inductive fault :=
  | BadRead (i : N)        (* read of a slot that holds no live element *)
  | BadWrite (i : N)       (* write outside the block, or through nullptr *)
  | BadDestroy (i : N)     (* destructor call on a slot without live element *)
  | BadFree                (* deallocate of a block that is not allocated *)
  | NoObject               (* member access through a dangling List *)
  | AssertFailed.          (* a failed assert (debug builds) *)

Inductive Outcome (X : Type) :=
  | Ret (x : X)
  | Throw (e : exn)
  | Fault (f : fault).
Arguments Ret {X} x.
Arguments Throw {X} e.
Arguments Fault {X} f.

(** A computation over a store [S]: the outcome and the store it leaves.  A
    thrown exception keeps the store as the operation left it. *)
Definition M (S X : Type) : Type := S -> Outcome X * S.

Definition ret {S X} (x : X) : M S X := fun s => (Ret x, s).
Definition throw {S X} (e : exn) : M S X := fun s => (Throw e, s).
Definition crash {S X} (f : fault) : M S X := fun s => (Fault f, s).
Definition bind {S X Y} (m : M S X) (f : X -> M S Y) : M S Y :=
  fun s => match m s with
           | (Ret x, s') => f x s'
           | (Throw e, s') => (Throw e, s')
           | (Fault u, s') => (Fault u, s')
           end.

Notation "x <- m ;; k" := (bind m (fun x => k))
  (at level 100, m at next level, right associativity).
Notation "m ;;; k" := (bind m (fun _ => k))
  (at level 100, right associativity).

Definition addr := positive.
Definition loc := positive.

Section Container.
Context {T : Type} `{Element T} {A : Type} `{Allocator A}.

(** The four data members of [List], [nullptr] being [None]. *)
Record ListObj := mkList {
  data : option addr;
  capacity : N;
  count : N;
  dataAllocator : A
}.

(** A block is an array of slots; [None] is raw, uninitialised storage. *)
Record State := mkState {
  heap : gmap addr (list (option T));
  objs : gmap loc ListObj
}.

Local Abbreviation M := (M State).

(** [std::allocator<T>::max_size()]: no array exceeds [PTRDIFF_MAX] bytes. *)
Definition max_size : N := PTRDIFF_MAX / Npos sizeof.

(** *** Member access through [this] *)

Definition get_obj (this : loc) : M ListObj :=
  fun s => match objs s !! this with
           | Some o => (Ret o, s)
           | None => (Fault NoObject, s)
           end.

Definition put_obj (this : loc) (o : ListObj) : M unit :=
  fun s => (Ret tt, mkState (heap s) (<[this := o]> (objs s))).

Definition rd_data (this : loc) : M (option addr) := o <- get_obj this ;; ret (data o).
Definition rd_capacity (this : loc) : M N := o <- get_obj this ;; ret (capacity o).
Definition rd_count (this : loc) : M N := o <- get_obj this ;; ret (count o).
Definition rd_alloc (this : loc) : M A := o <- get_obj this ;; ret (dataAllocator o).

Definition wr_data (this : loc) (d : option addr) : M unit :=
  o <- get_obj this ;; put_obj this (mkList d (capacity o) (count o) (dataAllocator o)).
Definition wr_capacity (this : loc) (c : N) : M unit :=
  o <- get_obj this ;; put_obj this (mkList (data o) c (count o) (dataAllocator o)).
Definition wr_count (this : loc) (c : N) : M unit :=
  o <- get_obj this ;; put_obj this (mkList (data o) (capacity o) c (dataAllocator o)).
Definition wr_alloc (this : loc) (a : A) : M unit :=
  o <- get_obj this ;; put_obj this (mkList (data o) (capacity o) (count o) a).

(** *** Slots of a block: [p[i]], placement new, destructor call *)

Definition slot (s : State) (p : option addr) (i : N) : option (option T) :=
  match p with
  | None => None
  | Some q => match heap s !! q with
              | Some blk => blk !! N.to_nat i
              | None => None
              end
  end.

Definition set_slot (p : addr) (i : N) (x : option T) (s : State) : State :=
  mkState (alter (fun blk => <[N.to_nat i := x]> blk) p (heap s)) (objs s).

(** [p[i]] as an rvalue. *)
Definition read_at (p : option addr) (i : N) : M T :=
  fun s => match slot s p i with
           | Some (Some v) => (Ret v, s)
           | _ => (Fault (BadRead i), s)
           end.

(** [new (p + i) T(v)]. *)
Definition construct_at (p : option addr) (i : N) (v : T) : M unit :=
  fun s => match p, slot s p i with
           | Some q, Some _ => (Ret tt, set_slot q i (Some v) s)
           | _, _ => (Fault (BadWrite i), s)
           end.

(** [p[i].~T()]. *)
Definition destroy_at (p : option addr) (i : N) : M unit :=
  fun s => match p, slot s p i with
           | Some q, Some (Some _) => (Ret tt, set_slot q i None s)
           | _, _ => (Fault (BadDestroy i), s)
           end.

(** [p[i] = v], assignment to a live element. *)
Definition assign_at (p : option addr) (i : N) (v : T) : M unit :=
  fun s => match p, slot s p i with
           | Some q, Some (Some _) => (Ret tt, set_slot q i (Some v) s)
           | _, _ => (Fault (BadWrite i), s)
           end.

(** [p[i] = std::move(p[j])]. *)
Definition move_assign_at (p : option addr) (i j : N) : M unit :=
  v <- read_at p j ;;
  assign_at p i v ;;;
  assign_at p j (moved_from v).

(** *** Arguments passed by reference *)

(** A [const T&]: an object that is no element of a list (a temporary, a
    local), or the element in slot [i] of the block at [p], as [l[i]] gives.
    The object behind it is read when it is used, not when it is passed. *)
Inductive ref :=
  | Obj (v : T)
  | Elem (p : option addr) (i : N).

Definition deref (r : ref) : M T :=
  match r with
  | Obj v => ret v
  | Elem p i => read_at p i
  end.

(** The arguments [Add] forwards to a constructor of [T]: a [T] to copy, or
    arguments on which the constructor throws. *)
Inductive ctor_args :=
  | Copy (r : ref)
  | Rejected.

(** [new (p + i) T(std::forward<Args>(args)...)]. *)
Definition construct_from (p : option addr) (i : N) (args : ctor_args) : M unit :=
  match args with
  | Copy r => v <- deref r ;; construct_at p i v
  | Rejected => throw element_exception
  end.

(** *** The allocator calls *)

(** [this->dataAllocator.allocate(n)]: a fresh block of [n] raw slots. *)
Definition alloc_block (this : loc) (n : N) : M (option addr) :=
  a <- rd_alloc this ;;
  if max_size <? n then throw bad_alloc else
  match allocate a n with
  | None => throw bad_alloc
  | Some a' =>
      wr_alloc this a' ;;;
      fun s => let p := fresh (dom (heap s)) in
               (Ret (Some p),
                mkState (<[p := replicate (N.to_nat n) None]> (heap s)) (objs s))
  end.

(** [this->dataAllocator.deallocate(p, n)]; on [nullptr] the heap is left
    alone, as [operator delete] does. *)
Definition dealloc_block (this : loc) (p : option addr) (n : N) : M unit :=
  a <- rd_alloc this ;;
  wr_alloc this (deallocate a n) ;;;
  fun s => match p with
           | None => (Ret tt, s)
           | Some q =>
               match heap s !! q with
               | Some blk =>
                   if decide (length blk = N.to_nat n)
                   then (Ret tt, mkState (delete q (heap s)) (objs s))
                   else (Fault BadFree, s)
               | None => (Fault BadFree, s)
               end
           end.

(** *** Loops *)

(** [for (i = lo; i < lo + n; i++) body(i)]; the bounds of every such loop
    in the class are fixed while it runs. *)
Fixpoint for_range (n : nat) (i : N) (body : N -> M unit) : M unit :=
  match n with
  | O => ret tt
  | S n' => body i ;;; for_range n' (N.succ i) body
  end.

Definition for_loop (lo hi : N) (body : N -> M unit) : M unit :=
  for_range (N.to_nat (hi - lo)) lo body.

(** [FindIf]: the offset from [begin()] of the first element that satisfies
    [pred], [None] for [nullptr]; [n] elements remain from offset [i]. *)
Fixpoint find_from (d : option addr) (pred : T -> bool) (n : nat) (i : N)
  : M (option N) :=
  match n with
  | O => ret None
  | S n' =>
      v <- read_at d i ;;
      if pred v then ret (Some i) else find_from d pred n' (N.succ i)
  end.

(** The picker/placer loop of [RemoveIf]; returns the final placer. *)
Fixpoint compact (d : option addr) (pred : T -> bool) (n : nat)
  (picker placer : N) : M N :=
  match n with
  | O => ret placer
  | S n' =>
      v <- read_at d picker ;;
      if negb (pred v)
      then move_assign_at d placer picker ;;;
           compact d pred n' (N.succ picker) (N.succ placer)
      else compact d pred n' (N.succ picker) placer
  end.

(** The loop of [Print] over [i < bound]; returns the text written. *)
Fixpoint print_items (d : option addr) (n : nat) (i : N) : M string :=
  match n with
  | O => ret ""%string
  | S n' =>
      v <- read_at d i ;;
      rest <- print_items d n' (N.succ i) ;;
      ret (show v +:+ ", " +:+ rest)%string
  end.

(** ** The member functions of [List] *)

(** [List()] and [List(Allocator const&)], constructing at [this]. *)
Definition List_default (this : loc) : M unit :=
  put_obj this (mkList None 0 0 alloc_default).

Definition List_alloc (this : loc) (alloc : A) : M unit :=
  put_obj this (mkList None 0 0 alloc).

(** [friend void swap(List&, List&)]: four [std::swap]s of members. *)
Definition swap (first second : loc) : M unit :=
  a1 <- rd_alloc first ;; a2 <- rd_alloc second ;;
  wr_alloc first a2 ;;; wr_alloc second a1 ;;;
  c1 <- rd_capacity first ;; c2 <- rd_capacity second ;;
  wr_capacity first c2 ;;; wr_capacity second c1 ;;;
  n1 <- rd_count first ;; n2 <- rd_count second ;;
  wr_count first n2 ;;; wr_count second n1 ;;;
  d1 <- rd_data first ;; d2 <- rd_data second ;;
  wr_data first d2 ;;; wr_data second d1.

Definition Clear (this : loc) : M unit :=
  n <- rd_count this ;;
  for_loop 0 n (fun i => d <- rd_data this ;; destroy_at d i) ;;;
  wr_count this 0.

(** [~List()]; the object leaves the store when its lifetime ends. *)
Definition List_destroy (this : loc) : M unit :=
  Clear this ;;;
  d <- rd_data this ;; c <- rd_capacity this ;;
  dealloc_block this d c ;;;
  fun s => (Ret tt, mkState (heap s) (delete this (objs s))).

Definition Resize (this : loc) (new_capacity : N) : M unit :=
  n <- rd_count this ;;
  if new_capacity <? n then crash AssertFailed else
  new_data <- alloc_block this new_capacity ;;
  d <- rd_data this ;; n <- rd_count this ;;
  for_loop 0 n (fun i =>
    v <- read_at d i ;;
    construct_at new_data i v ;;;
    destroy_at d i) ;;;
  c <- rd_capacity this ;;
  dealloc_block this d c ;;;
  wr_data this new_data ;;;
  wr_capacity this new_capacity.

(** A copy constructor [T(const T&)] that throws on the values [throws]
    picks and returns the copy otherwise. *)
Definition copy_or_throw (throws : T -> bool) (v : T) : M T :=
  if throws v then throw element_exception else ret v.

(** [Resize] for an element type whose copy constructor is [copy], which
    may throw. *)
Definition Resize_by (copy : T -> M T) (this : loc) (new_capacity : N) : M unit :=
  n <- rd_count this ;;
  if new_capacity <? n then crash AssertFailed else
  new_data <- alloc_block this new_capacity ;;
  d <- rd_data this ;; n <- rd_count this ;;
  for_loop 0 n (fun i =>
    v <- read_at d i ;;
    w <- copy v ;;
    construct_at new_data i w ;;;
    destroy_at d i) ;;;
  c <- rd_capacity this ;;
  dealloc_block this d c ;;;
  wr_data this new_data ;;;
  wr_capacity this new_capacity.

Definition ShrinkToFit (this : loc) : M unit :=
  c <- rd_capacity this ;; n <- rd_count this ;;
  if decide (c = n) then ret tt else Resize this n.

Definition Capacity (this : loc) : M N := rd_capacity this.
Definition Count (this : loc) : M N := rd_count this.

(** [void Capacity(size_t new_capacity)]. *)
Definition Capacity_set (this : loc) (new_capacity : N) : M unit :=
  c <- rd_capacity this ;;
  if new_capacity <=? c then ret tt else Resize this new_capacity.

(** [List& operator=(const List& other)]. *)
Definition copy_assign (this other : loc) : M unit :=
  if decide (this <> other) then
    Clear this ;;;
    oc <- rd_capacity other ;;
    Capacity_set this oc ;;;
    od <- rd_data other ;; on <- rd_count other ;;
    d <- rd_data this ;;
    for_loop 0 on (fun i => v <- read_at od i ;; construct_at d i v) ;;;
    on <- rd_count other ;;
    wr_count this on
  else ret tt.

(** [List(List&& other)], constructing at [this]. *)
Definition List_move (this other : loc) : M unit :=
  a <- rd_alloc other ;; d <- rd_data other ;;
  c <- rd_capacity other ;; n <- rd_count other ;;
  put_obj this (mkList d c n a) ;;;
  wr_data other None ;;;
  wr_capacity other 0 ;;;
  wr_count other 0.

(** [List& operator=(List&& other)]; [tmp] is a local object. *)
Definition move_assign (this other : loc) : M unit :=
  tmp <- (fun s => (Ret (fresh (dom (objs s))), s)) ;;
  List_move tmp other ;;;
  swap this tmp ;;;
  List_destroy tmp.

(** [void Print() const]; the value is the text sent to [std::cout]. *)
Definition Print (this : loc) : M string :=
  n <- rd_count this ;; d <- rd_data this ;;
  body <- print_items d (N.to_nat (size_sub n 1)) 0 ;;
  n <- rd_count this ;;
  v <- read_at d (size_sub n 1) ;;
  ret ("(" +:+ body +:+ show v +:+ ")" +:+ String (Ascii.ascii_of_nat 10) "")%string.

(** [void Add(Args&&...)].  The arguments are forwarded as references: the
    list grows first, [count++] comes next, and only then the constructor
    of [T] reads them. *)
Definition Add (this : loc) (args : ctor_args) : M unit :=
  c <- rd_capacity this ;; n <- rd_count this ;;
  (if decide (c = n) then Capacity_set this (N.max (size_mul 2 c) 1) else ret tt) ;;;
  d <- rd_data this ;; n <- rd_count this ;;
  wr_count this (size_add n 1) ;;;
  construct_from d n args.

(** [T* Find(const T&)], as an offset from [data]. *)
Definition Find (this : loc) (val : T) : M (option N) :=
  n <- rd_count this ;; d <- rd_data this ;;
  find_from d (fun e => elem_eqb e val) (N.to_nat n) 0.

Definition FindIf (this : loc) (pred : T -> bool) : M (option N) :=
  d <- rd_data this ;; n <- rd_count this ;;
  find_from d pred (N.to_nat n) 0.

Definition RemoveAt (this : loc) (index : N) : M unit :=
  n <- rd_count this ;;
  if (index <? 0) || (n <=? index) then throw (out_of_range index) else
  d <- rd_data this ;;
  for_loop (index + 1) n (fun k => move_assign_at d (k - 1) k) ;;;
  n <- rd_count this ;;
  wr_count this (size_sub n 1) ;;;
  destroy_at d (size_sub n 1).

(** [size_t RemoveIf(Predicate&&)].  The destructor loop is compiled only
    for element types with a non-trivial destructor; where it is elided the
    calls would do nothing, so the model runs it for every [T]. *)
Definition RemoveIf (this : loc) (pred : T -> bool) : M N :=
  found <- FindIf this pred ;;
  match found with
  | None => ret 0
  | Some first =>
      d <- rd_data this ;; n <- rd_count this ;;
      placer <- compact d pred (N.to_nat (n - (first + 1))) (first + 1) first ;;
      for_loop placer n (fun k => destroy_at d k) ;;;
      n <- rd_count this ;;
      let removed := size_sub n placer in
      wr_count this (size_sub n removed) ;;;
      ret removed
  end.

(** [FindIf] and [RemoveIf] with a predicate that reads the store, as the
    lambda of [Remove] does through the reference it captured. *)
Fixpoint find_from_by (d : option addr) (pred : T -> M bool) (n : nat) (i : N)
  : M (option N) :=
  match n with
  | O => ret None
  | S n' =>
      v <- read_at d i ;;
      b <- pred v ;;
      if b then ret (Some i) else find_from_by d pred n' (N.succ i)
  end.

Fixpoint compact_by (d : option addr) (pred : T -> M bool) (n : nat)
  (picker placer : N) : M N :=
  match n with
  | O => ret placer
  | S n' =>
      v <- read_at d picker ;;
      b <- pred v ;;
      if negb b
      then move_assign_at d placer picker ;;;
           compact_by d pred n' (N.succ picker) (N.succ placer)
      else compact_by d pred n' (N.succ picker) placer
  end.

Definition FindIf_by (this : loc) (pred : T -> M bool) : M (option N) :=
  d <- rd_data this ;; n <- rd_count this ;;
  find_from_by d pred (N.to_nat n) 0.

Definition RemoveIf_by (this : loc) (pred : T -> M bool) : M N :=
  found <- FindIf_by this pred ;;
  match found with
  | None => ret 0
  | Some first =>
      d <- rd_data this ;; n <- rd_count this ;;
      placer <- compact_by d pred (N.to_nat (n - (first + 1))) (first + 1) first ;;
      for_loop placer n (fun k => destroy_at d k) ;;;
      n <- rd_count this ;;
      let removed := size_sub n placer in
      wr_count this (size_sub n removed) ;;;
      ret removed
  end.

(** [size_t Remove(const T& val)]: [RemoveIf] with the lambda
    [[&](const auto& e) { return e == val; }], which reads [val] through the
    reference at every call. *)
Definition Remove (this : loc) (val : ref) : M N :=
  RemoveIf_by this (fun e => v <- deref val ;; ret (elem_eqb e v)).

(** [operator[]], unchecked, and the checked [Get]. *)
Definition subscript (this : loc) (index : N) : M T :=
  d <- rd_data this ;; read_at d index.

(** [l[index]] as an lvalue: the reference [operator[]] returns. *)
Definition subscript_ref (this : loc) (index : N) : M ref :=
  d <- rd_data this ;; ret (Elem d index).

Definition Get (this : loc) (index : N) : M T :=
  n <- rd_count this ;;
  if (n <=? index) || (index <? 0) then throw (out_of_range index) else
  d <- rd_data this ;; read_at d index.

(** A client adding the values of [vs] one after the other, each passed as
    an object of its own. *)
Fixpoint add_all (this : loc) (vs : list T) : M unit :=
  match vs with
  | [] => ret tt
  | v :: vs' => Add this (Copy (Obj v)) ;;; add_all this vs'
  end.

(** ** Observing a store *)

(** The live elements of the list at [this], in slot order: what a
    traversal from [begin()] to [end()] visits. *)
Definition elements (s : State) (this : loc) : list T :=
  match objs s !! this with
  | Some o =>
      match data o with
      | Some p =>
          match heap s !! p with
          | Some blk => omap id (take (N.to_nat (count o)) blk)
          | None => []
          end
      | None => []
      end
  | None => []
  end.

Definition is_live (x : option T) : bool :=
  match x with Some _ => true | None => false end.

(** The class invariant of the object at [this]: [count <= capacity], the
    block has [capacity] slots, the first [count] live and the others raw;
    without a block the capacity is 0. *)
Definition wf (s : State) (this : loc) : bool :=
  match objs s !! this with
  | Some o =>
      (count o <=? capacity o) && (capacity o <=? max_size) &&
      match data o with
      | Some p =>
          match heap s !! p with
          | Some blk =>
              bool_decide (length blk = N.to_nat (capacity o)) &&
              forallb is_live (take (N.to_nat (count o)) blk) &&
              forallb (fun x => negb (is_live x)) (drop (N.to_nat (count o)) blk)
          | None => false
          end
      | None => capacity o =? 0
      end
  | None => false
  end.

(** Two lists do not share their block. *)
Definition separate (s : State) (l1 l2 : loc) : bool :=
  match objs s !! l1, objs s !! l2 with
  | Some o1, Some o2 =>
      match data o1, data o2 with
      | Some p1, Some p2 => bool_decide (p1 <> p2)
      | _, _ => true
      end
  | _, _ => false
  end.

(** ** Specification vocabulary *)

(** A block of [cap] slots whose live elements are [xs]. *)
Definition block_of (xs : list T) (cap : N) : list (option T) :=
  (Some <$> xs) ++ replicate (N.to_nat cap - length xs) None.

(** The object [o] at [this] represents the sequence [xs]. *)
Definition Repr (s : State) (this : loc) (o : ListObj) (xs : list T) : Prop :=
  objs s !! this = Some o /\
  count o = N.of_nat (length xs) /\
  count o <= capacity o /\
  capacity o <= max_size /\
  match data o with
  | Some p => heap s !! p = Some (block_of xs (capacity o))
  | None => capacity o = 0
  end.

(** Neither list's block is the other's. *)
Definition disjoint_blocks (o oo : ListObj) : Prop :=
  forall p, data o = Some p -> data oo <> Some p.

(** What [allocate(n)] answers, with the [max_size] check. *)
Definition try_allocate (a : A) (n : N) : option A :=
  if max_size <? n then None else allocate a n.

Definition alloc_succeeds (s : State) (this : loc) (n : N) : bool :=
  match objs s !! this with
  | Some o => match try_allocate (dataAllocator o) n with Some _ => true | None => false end
  | None => false
  end.

(** The store [Clear] leaves. *)
Definition cleared (s : State) (this : loc) (o : ListObj) : State :=
  mkState
    (match data o with
     | Some p => <[p := block_of [] (capacity o)]> (heap s)
     | None => heap s
     end)
    (<[this := mkList (data o) (capacity o) 0 (dataAllocator o)]> (objs s)).

(** The store a successful [Resize(n)] leaves; [a'] is the allocator after
    its [allocate(n)]. *)
Definition resized (s : State) (this : loc) (o : ListObj) (n : N) (a' : A)
  (xs : list T) : State :=
  let q := fresh (dom (heap s)) in
  mkState
    (<[q := block_of xs n]>
       (match data o with Some p => delete p (heap s) | None => heap s end))
    (<[this := mkList (Some q) n (count o) (deallocate a' (capacity o))]> (objs s)).

Definition release (d : option addr) (h : gmap addr (list (option T)))
  : gmap addr (list (option T)) :=
  match d with Some p => delete p h | None => h end.

(** The empty state a move leaves in its source. *)
Definition moved_out (oo : ListObj) : ListObj := mkList None 0 0 (dataAllocator oo).

(** The store after [this = std::move(other)] for distinct operands. *)
Definition move_assigned (s : State) (this other : loc) (o oo : ListObj) : State :=
  mkState (release (data o) (heap s))
    (<[this := oo]> (<[other := moved_out oo]> (objs s))).

(** The second statement of [Add], for any arguments. *)
Definition add_rest (this : loc) (args : ctor_args) : M unit :=
  d <- rd_data this ;; n <- rd_count this ;;
  wr_count this (size_add n 1) ;;;
  construct_from d n args.

(** The second statement of [Add]: construct in the next free slot. *)
Definition add_tail (this : loc) (v : T) : M unit :=
  d <- rd_data this ;; n <- rd_count this ;;
  wr_count this (size_add n 1) ;;;
  construct_at d n v.

(** The copy loop of the copy assignment and the statement after it. *)
Definition copy_elements (this other : loc) : M unit :=
  od <- rd_data other ;; on <- rd_count other ;;
  d <- rd_data this ;;
  for_loop 0 on (fun i => v <- read_at od i ;; construct_at d i v) ;;;
  on <- rd_count other ;;
  wr_count this on.

Definition keep (pred : T -> bool) (xs : list T) : list T :=
  List.filter (fun x => negb (pred x)) xs.

(** What [std::move(first, last, d_first)] leaves in the last slot. *)
Fixpoint shifted_last (x : T) (rest : list T) : T :=
  match rest with
  | [] => x
  | r :: rest' => shifted_last (moved_from r) rest'
  end.

(** The text [Print] writes for the elements before the last. *)
Definition render_items (xs : list T) : string :=
  foldr (fun v acc => show v +:+ ", " +:+ acc)%string ""%string xs.

(** The whole line [Print] writes for a list ending in [x]. *)
Definition render (xs : list T) (x : T) : string :=
  ("(" +:+ render_items xs +:+ show x +:+ ")" +:+ String (Ascii.ascii_of_nat 10) "")%string.

(** What a move from [other] (in store [s]) to [this] (in store [s'])
    establishes: [this] holds what [other] held, [other] is empty. *)
Definition moved (s s' : State) (this other : loc) : Prop :=
  elements s' this = elements s other /\
  fst (Count this s') = fst (Count other s) /\
  fst (Capacity this s') = fst (Capacity other s) /\
  Count other s' = (Ret 0, s') /\
  Capacity other s' = (Ret 0, s') /\
  rd_data other s' = (Ret None, s') /\
  elements s' other = [] /\
  wf s' this = true /\ wf s' other = true.

(** The mutating operations of the class; [Add] and [Remove] with an
    argument that is an object of its own, no element of a list. *)
Inductive mut_op :=
  | OpAdd (v : T)
  | OpRemoveAt (index : N)
  | OpRemove (v : T)
  | OpRemoveIf (pred : T -> bool)
  | OpClear
  | OpCapacity (new_capacity : N)
  | OpShrinkToFit
  | OpCopyAssign (other : loc)
  | OpMoveAssign (other : loc).

Definition run_op (this : loc) (op : mut_op) : M unit :=
  match op with
  | OpAdd v => Add this (Copy (Obj v))
  | OpRemoveAt index => RemoveAt this index
  | OpRemove v => _ <- Remove this (Obj v) ;; ret tt
  | OpRemoveIf pred => _ <- RemoveIf this pred ;; ret tt
  | OpClear => Clear this
  | OpCapacity n => Capacity_set this n
  | OpShrinkToFit => ShrinkToFit this
  | OpCopyAssign other => copy_assign this other
  | OpMoveAssign other => move_assign this other
  end.

(** The other operand of an assignment is [this] itself or a well-formed
    list with a block of its own. *)
Definition operand_ok (s : State) (this other : loc) : bool :=
  bool_decide (this = other) || (wf s other && separate s this other).

Definition operands_ok (s : State) (this : loc) (op : mut_op) : bool :=
  match op with
  | OpCopyAssign other | OpMoveAssign other => operand_ok s this other
  | _ => true
  end.

(** What a failed operation leaves: the store untouched, except for a copy
    assignment, which has emptied [this] and nothing else. *)
Definition after_failure (s s' : State) (this : loc) (op : mut_op) : Prop :=
  match op with
  | OpCopyAssign other =>
      this <> other /\
      elements s' this = [] /\
      Count this s' = (Ret 0, s') /\
      fst (Capacity this s') = fst (Capacity this s) /\
      wf s' this = true /\
      elements s' other = elements s other /\
      wf s' other = true
  | _ => s' = s
  end.

(** ** Frames, classes of operations, a whole life of a list *)

(** An operation on the list at [this] (object [o] before, [o'] after) has
    left every other object and every other block as it was. *)
Definition frame_of (s s' : State) (this : loc) (o o' : ListObj) : Prop :=
  (forall l, l <> this -> objs s' !! l = objs s !! l) /\
  release (data o') (heap s') = release (data o) (heap s).

(** The operations that involve no second list. *)
Definition single_list (op : mut_op) : bool :=
  match op with
  | OpCopyAssign _ | OpMoveAssign _ => false
  | _ => true
  end.

(** The operations that may lower the capacity. *)
Definition may_shrink (op : mut_op) : bool :=
  match op with
  | OpShrinkToFit | OpMoveAssign _ => true
  | _ => false
  end.

(** [List<T> l; l.Add(v1); ...; l.Add(vn);] and the end of [l]'s scope. *)
Definition build_and_destroy (this : loc) (vs : list T) : M unit :=
  List_default this ;;; add_all this vs ;;; List_destroy this.

(** The capacity of a list grown by [Add] alone is below twice its count. *)
Definition growth_ok (o : ListObj) : Prop :=
  (count o = 0 /\ capacity o = 0) \/ (count o <= capacity o /\ capacity o < 2 * count o).

End Container.

(** ** Instances used in the examples *)

(** [int] elements: a moved-from [int] keeps its value. *)
#[export] Instance int_element : Element Z := {
  elem_eqb := Z.eqb;
  moved_from := fun v => v;
  show := pretty.pretty;
  sizeof := 4
}.

(** [std::string] elements: a moved-from string is left empty. *)
#[export] Instance string_element : Element string := {
  elem_eqb := String.eqb;
  moved_from := fun _ => ""%string;
  show := fun v => v;
  sizeof := 32
}.

(** [std::allocator<T>], stateless; it never fails below [max_size]. *)
#[export] Instance std_allocator : Allocator unit := {
  allocate := fun _ _ => Some tt;
  deallocate := fun _ _ => tt;
  alloc_default := tt
}.

(** An allocator drawing on a pool of slots; its state is what is left. *)
#[export] Instance pool_allocator : Allocator N := {
  allocate := fun left n => if n <=? left then Some (left - n) else None;
  deallocate := fun left n => left + n;
  alloc_default := 0
}.

Definition empty_state {T A} : @State T A := mkState ∅ ∅.

Definition run {S X} (m : M S X) (s : S) : S := snd (m s).

(** [List<int> l;] *)
Definition st_empty : @State Z unit := run (List_default 1%positive) empty_state.

(** [List<int> l; l.Add(1); ... l.Add(5);] *)
Definition st_12345 : @State Z unit :=
  run (add_all 1%positive [1; 2; 3; 4; 5]%Z) st_empty.

Definition st_11 : @State Z unit := run (add_all 1%positive [1; 1]%Z) st_empty.

Definition st_10_40 : @State Z unit :=
  run (add_all 1%positive [10; 20; 30; 40]%Z) st_empty.

(** Two lists, [a = [1,2]] at 1 and [b = [7,8,9]] at 2. *)
Definition st_two : @State Z unit :=
  run (List_default 1%positive ;;; add_all 1%positive [1; 2]%Z ;;;
       List_default 2%positive ;;; add_all 2%positive [7; 8; 9]%Z) empty_state.

(** The same two lists over pool allocators; the pool of [a] is left with
    one slot, too few for the four slots of [b]. *)
Definition st_pool : @State Z N :=
  run (List_alloc 1%positive 3 ;;; add_all 1%positive [1; 2]%Z ;;;
       List_alloc 2%positive 100 ;;; add_all 2%positive [7; 8; 9]%Z) empty_state.

Definition st_1212 : @State Z unit :=
  run (add_all 1%positive [1; 2; 1; 2]%Z) st_empty.

(** A predicate matching 2 and 4. *)
Definition is_2_or_4 (x : Z) : bool := (x =? 2)%Z || (x =? 4)%Z.

(** ** Basic facts about the monad and the primitives *)

Section Primitives.
Context {T : Type} `{Element T} {A : Type} `{Allocator A}.
Local Abbreviation State := (@State T A).
Local Abbreviation ListObj := (@ListObj A).
Implicit Types (s : State) (o : ListObj) (this : loc) (p : addr).
Implicit Types (blk pre post : list (option T)) (xs ys : list T).

Lemma bind_ret {X Y} (m : M State X) (k : X -> M State Y) s x s1 :
  m s = (Ret x, s1) -> bind m k s = k x s1.
Proof. intros E. unfold bind. by rewrite E. Qed.

Lemma bind_throw {X Y} (m : M State X) (k : X -> M State Y) s e s1 :
  m s = (Throw e, s1) -> bind m k s = (Throw e, s1).
Proof. intros E. unfold bind. by rewrite E. Qed.

Lemma bind_fault {X Y} (m : M State X) (k : X -> M State Y) s f s1 :
  m s = (Fault f, s1) -> bind m k s = (Fault f, s1).
Proof. intros E. unfold bind. by rewrite E. Qed.

Lemma bind_assoc {X Y Z} (m : M State X) (k1 : X -> M State Y) (k2 : Y -> M State Z) s :
  bind (bind m k1) k2 s = bind m (fun x => bind (k1 x) k2) s.
Proof. unfold bind. by destruct (m s) as [[x|e|f] s1]. Qed.

Lemma get_obj_ok s this o :
  objs s !! this = Some o -> get_obj this s = (Ret o, s).
Proof. intros E. unfold get_obj. by rewrite E. Qed.

Lemma rd_data_ok s this o :
  objs s !! this = Some o -> rd_data this s = (Ret (data o), s).
Proof. intros E. unfold rd_data. by rewrite (bind_ret _ _ _ _ _ (get_obj_ok _ _ _ E)). Qed.

Lemma rd_capacity_ok s this o :
  objs s !! this = Some o -> rd_capacity this s = (Ret (capacity o), s).
Proof. intros E. unfold rd_capacity. by rewrite (bind_ret _ _ _ _ _ (get_obj_ok _ _ _ E)). Qed.

Lemma rd_count_ok s this o :
  objs s !! this = Some o -> rd_count this s = (Ret (count o), s).
Proof. intros E. unfold rd_count. by rewrite (bind_ret _ _ _ _ _ (get_obj_ok _ _ _ E)). Qed.

Lemma rd_alloc_ok s this o :
  objs s !! this = Some o -> rd_alloc this s = (Ret (dataAllocator o), s).
Proof. intros E. unfold rd_alloc. by rewrite (bind_ret _ _ _ _ _ (get_obj_ok _ _ _ E)). Qed.

Lemma wr_data_ok s this o d :
  objs s !! this = Some o ->
  wr_data this d s =
  (Ret tt, mkState (heap s)
             (<[this := mkList d (capacity o) (count o) (dataAllocator o)]> (objs s))).
Proof. intros E. unfold wr_data. by rewrite (bind_ret _ _ _ _ _ (get_obj_ok _ _ _ E)). Qed.

Lemma wr_capacity_ok s this o c :
  objs s !! this = Some o ->
  wr_capacity this c s =
  (Ret tt, mkState (heap s)
             (<[this := mkList (data o) c (count o) (dataAllocator o)]> (objs s))).
Proof. intros E. unfold wr_capacity. by rewrite (bind_ret _ _ _ _ _ (get_obj_ok _ _ _ E)). Qed.

Lemma wr_count_ok s this o c :
  objs s !! this = Some o ->
  wr_count this c s =
  (Ret tt, mkState (heap s)
             (<[this := mkList (data o) (capacity o) c (dataAllocator o)]> (objs s))).
Proof. intros E. unfold wr_count. by rewrite (bind_ret _ _ _ _ _ (get_obj_ok _ _ _ E)). Qed.

Lemma wr_alloc_ok s this o a :
  objs s !! this = Some o ->
  wr_alloc this a s =
  (Ret tt, mkState (heap s)
             (<[this := mkList (data o) (capacity o) (count o) a]> (objs s))).
Proof. intros E. unfold wr_alloc. by rewrite (bind_ret _ _ _ _ _ (get_obj_ok _ _ _ E)). Qed.

(** Slots, addressed through a decomposition of the block. *)

Lemma insert_middle {X} (l1 l2 : list X) (x y : X) :
  <[length l1 := y]> (l1 ++ x :: l2) = l1 ++ y :: l2.
Proof. rewrite insert_app_r_alt by lia. by rewrite Nat.sub_diag. Qed.

Lemma slot_middle s p pre x post i :
  heap s !! p = Some (pre ++ x :: post) -> N.to_nat i = length pre ->
  slot s (Some p) i = Some x.
Proof.
  intros E Hi. unfold slot. rewrite E, Hi. by apply list_lookup_middle.
Qed.

Lemma set_slot_middle s p pre x y post i :
  heap s !! p = Some (pre ++ x :: post) -> N.to_nat i = length pre ->
  set_slot p i y s = mkState (<[p := pre ++ y :: post]> (heap s)) (objs s).
Proof.
  intros E Hi. unfold set_slot. f_equal.
  apply map_eq. intros q. destruct (decide (p = q)) as [<-|Hne].
  - rewrite lookup_alter_eq, lookup_insert_eq, E. simpl. f_equal.
    rewrite Hi. apply insert_middle.
  - by rewrite lookup_alter_ne, lookup_insert_ne.
Qed.

End Primitives.

(** Running the accesses to the members of an object. *)

Ltac obj_lookup :=
  simpl;
  first [ eassumption
        | apply lookup_insert_eq
        | rewrite lookup_insert_ne by done; obj_lookup ].

Ltac exec_field :=
  rewrite ?bind_assoc;
  lazymatch goal with
  | |- bind (rd_count _) _ _ = _ => erewrite bind_ret by (apply rd_count_ok; obj_lookup)
  | |- bind (rd_data _) _ _ = _ => erewrite bind_ret by (apply rd_data_ok; obj_lookup)
  | |- bind (rd_capacity _) _ _ = _ => erewrite bind_ret by (apply rd_capacity_ok; obj_lookup)
  | |- bind (rd_alloc _) _ _ = _ => erewrite bind_ret by (apply rd_alloc_ok; obj_lookup)
  | |- bind (wr_count _ _) _ _ = _ => erewrite bind_ret by (apply wr_count_ok; obj_lookup)
  | |- bind (wr_data _ _) _ _ = _ => erewrite bind_ret by (apply wr_data_ok; obj_lookup)
  | |- bind (wr_capacity _ _) _ _ = _ => erewrite bind_ret by (apply wr_capacity_ok; obj_lookup)
  | |- bind (wr_alloc _ _) _ _ = _ => erewrite bind_ret by (apply wr_alloc_ok; obj_lookup)
  | |- wr_count _ _ _ = _ => erewrite wr_count_ok by obj_lookup
  | |- wr_data _ _ _ = _ => erewrite wr_data_ok by obj_lookup
  | |- wr_capacity _ _ _ = _ => erewrite wr_capacity_ok by obj_lookup
  | |- wr_alloc _ _ _ = _ => erewrite wr_alloc_ok by obj_lookup
  end;
  cbn [data capacity count dataAllocator heap objs].

Section Slots.
Context {T : Type} `{Element T} {A : Type} `{Allocator A}.
Local Abbreviation State := (@State T A).
Local Abbreviation ListObj := (@ListObj A).
Implicit Types (s : State) (o : ListObj) (this : loc) (p : addr).
Implicit Types (blk pre post : list (option T)) (xs ys : list T).

Lemma read_at_ok s p pre v post i :
  heap s !! p = Some (pre ++ Some v :: post) -> N.to_nat i = length pre ->
  read_at (Some p) i s = (Ret v, s).
Proof. intros E Hi. unfold read_at. by rewrite (slot_middle _ _ _ _ _ _ E Hi). Qed.

Lemma construct_at_ok s p pre x v post i :
  heap s !! p = Some (pre ++ x :: post) -> N.to_nat i = length pre ->
  construct_at (Some p) i v s =
  (Ret tt, mkState (<[p := pre ++ Some v :: post]> (heap s)) (objs s)).
Proof.
  intros E Hi. unfold construct_at.
  rewrite (slot_middle _ _ _ _ _ _ E Hi).
  by rewrite (set_slot_middle _ _ _ _ _ _ _ E Hi).
Qed.

Lemma destroy_at_ok s p pre v post i :
  heap s !! p = Some (pre ++ Some v :: post) -> N.to_nat i = length pre ->
  destroy_at (Some p) i s =
  (Ret tt, mkState (<[p := pre ++ None :: post]> (heap s)) (objs s)).
Proof.
  intros E Hi. unfold destroy_at.
  rewrite (slot_middle _ _ _ _ _ _ E Hi).
  by rewrite (set_slot_middle _ _ _ _ _ _ _ E Hi).
Qed.

Lemma assign_at_ok s p pre w v post i :
  heap s !! p = Some (pre ++ Some w :: post) -> N.to_nat i = length pre ->
  assign_at (Some p) i v s =
  (Ret tt, mkState (<[p := pre ++ Some v :: post]> (heap s)) (objs s)).
Proof.
  intros E Hi. unfold assign_at.
  rewrite (slot_middle _ _ _ _ _ _ E Hi).
  by rewrite (set_slot_middle _ _ _ _ _ _ _ E Hi).
Qed.

(** [p[i] = std::move(p[j])] for [i < j], with the slots between them. *)
Lemma move_assign_at_ok s p pre w mid v post i j :
  heap s !! p = Some (pre ++ Some w :: mid ++ Some v :: post) ->
  N.to_nat i = length pre -> N.to_nat j = (length pre + S (length mid))%nat ->
  move_assign_at (Some p) i j s =
  (Ret tt, mkState (<[p := pre ++ Some v :: mid ++ Some (moved_from v) :: post]> (heap s))
             (objs s)).
Proof.
  intros E Hi Hj. unfold move_assign_at.
  assert (E1 : heap s !! p = Some ((pre ++ Some w :: mid) ++ Some v :: post)).
  { rewrite E. f_equal. by rewrite <- app_assoc. }
  assert (Hj1 : N.to_nat j = length (pre ++ Some w :: mid)).
  { rewrite length_app. simpl. lia. }
  rewrite (bind_ret _ _ _ _ _ (read_at_ok _ _ _ _ _ _ E1 Hj1)).
  rewrite (bind_ret _ _ _ _ _ (assign_at_ok _ _ _ _ v _ _ E Hi)).
  set (s1 := mkState (<[p := pre ++ Some v :: mid ++ Some v :: post]> (heap s)) (objs s)).
  assert (E2 : heap s1 !! p = Some ((pre ++ Some v :: mid) ++ Some v :: post)).
  { simpl. rewrite lookup_insert_eq. f_equal. by rewrite <- app_assoc. }
  assert (Hj2 : N.to_nat j = length (pre ++ Some v :: mid)).
  { rewrite length_app. simpl. lia. }
  rewrite (assign_at_ok _ _ _ _ (moved_from v) _ _ E2 Hj2). simpl.
  rewrite insert_insert_eq. by rewrite <- app_assoc.
Qed.

(** The destructor loop over a run of live slots. *)
Lemma destroy_range_ok xs : forall s p pre post i,
  heap s !! p = Some (pre ++ (Some <$> xs) ++ post) -> N.to_nat i = length pre ->
  for_range (length xs) i (fun k => destroy_at (Some p) k) s =
  (Ret tt, mkState (<[p := pre ++ replicate (length xs) None ++ post]> (heap s)) (objs s)).
Proof.
  induction xs as [|x xs IH]; intros s p pre post i E Hi; simpl.
  - unfold ret. destruct s as [h ob]; simpl in *. by rewrite insert_id.
  - rewrite (bind_ret _ _ _ _ _ (destroy_at_ok _ _ _ _ _ _ E Hi)).
    rewrite (IH _ p (pre ++ [None]) post).
    + simpl. rewrite insert_insert_eq. by rewrite <- app_assoc.
    + simpl. rewrite lookup_insert_eq. by rewrite <- app_assoc.
    + rewrite length_app. simpl. lia.
Qed.

End Slots.

Section Loops.
Context {T : Type} `{Element T} {A : Type} `{Allocator A}.
Local Abbreviation State := (@State T A).
Local Abbreviation ListObj := (@ListObj A).
Implicit Types (s : State) (o : ListObj) (this : loc) (p q : addr).
Implicit Types (blk pre post : list (option T)) (xs ys : list T).

(** The loop of [Clear], which reads [data] on every round. *)
Lemma clear_range_ok this o xs : forall s p pre post i,
  objs s !! this = Some o -> data o = Some p ->
  heap s !! p = Some (pre ++ (Some <$> xs) ++ post) -> N.to_nat i = length pre ->
  for_range (length xs) i (fun k => d <- rd_data this ;; destroy_at d k) s =
  (Ret tt, mkState (<[p := pre ++ replicate (length xs) None ++ post]> (heap s)) (objs s)).
Proof.
  induction xs as [|x xs IH]; intros s p pre post i Ho Hd E Hi; simpl.
  - unfold ret. destruct s as [h ob]; simpl in *. by rewrite insert_id.
  - rewrite bind_assoc, (bind_ret _ _ _ _ _ (rd_data_ok _ _ _ Ho)), Hd.
    rewrite (bind_ret _ _ _ _ _ (destroy_at_ok _ _ _ _ _ _ E Hi)).
    rewrite (IH _ p (pre ++ [None]) post); simpl; try done.
    + rewrite insert_insert_eq. by rewrite <- app_assoc.
    + rewrite lookup_insert_eq. by rewrite <- app_assoc.
    + rewrite length_app. simpl. lia.
Qed.

(** [FindIf] over a run of live slots. *)
Lemma find_from_none pred xs : forall s p pre post i,
  heap s !! p = Some (pre ++ (Some <$> xs) ++ post) -> N.to_nat i = length pre ->
  List.filter pred xs = [] ->
  find_from (Some p) pred (length xs) i s = (Ret None, s).
Proof.
  induction xs as [|x xs IH]; intros s p pre post i E Hi Hf; simpl; [done|].
  simpl in Hf. destruct (pred x) eqn:Hx; [done|].
  rewrite (bind_ret _ _ _ _ _ (read_at_ok _ _ _ _ _ _ E Hi)). rewrite Hx.
  apply (IH _ p (pre ++ [Some x]) post); try done.
  - rewrite E. by rewrite <- app_assoc.
  - rewrite length_app. simpl. lia.
Qed.

Lemma find_from_some pred xs1 x xs2 : forall s p pre post i,
  heap s !! p = Some (pre ++ (Some <$> xs1 ++ x :: xs2) ++ post) ->
  N.to_nat i = length pre ->
  List.filter pred xs1 = [] -> pred x = true ->
  find_from (Some p) pred (length (xs1 ++ x :: xs2)) i s =
  (Ret (Some (i + N.of_nat (length xs1))), s).
Proof.
  induction xs1 as [|y xs1 IH]; intros s p pre post i E Hi Hf Hx; simpl in *.
  - rewrite (bind_ret _ _ _ _ _ (read_at_ok _ _ _ _ _ _ E Hi)). rewrite Hx.
    unfold ret. do 3 f_equal. lia.
  - destruct (pred y) eqn:Hy; [done|].
    rewrite (bind_ret _ _ _ _ _ (read_at_ok _ _ _ _ _ _ E Hi)). rewrite Hy.
    rewrite (IH _ p (pre ++ [Some y]) post (N.succ i)); try done.
    + do 3 f_equal. lia.
    + rewrite E. by rewrite <- app_assoc.
    + rewrite length_app. simpl. lia.
Qed.

(** A list either has no element satisfying [pred] or splits at the first. *)
Lemma first_match_split (pred : T -> bool) xs :
  List.filter pred xs = [] \/
  exists xs1 x xs2, xs = xs1 ++ x :: xs2 /\ List.filter pred xs1 = [] /\ pred x = true.
Proof.
  induction xs as [|y xs IH]; [by left|].
  destruct (pred y) eqn:Hy.
  - right. exists [], y, xs. by rewrite Hy.
  - destruct IH as [IH|(xs1 & x & xs2 & -> & Hf & Hx)].
    + left. simpl. by rewrite Hy.
    + right. exists (y :: xs1), x, xs2. simpl. by rewrite Hy.
Qed.

(** The picker/placer loop: [g] are the slots between placer and picker. *)
Lemma compact_ok pred rest : forall s p pre g post picker placer,
  heap s !! p = Some (pre ++ (Some <$> g) ++ (Some <$> rest) ++ post) ->
  g <> [] ->
  N.to_nat placer = length pre ->
  N.to_nat picker = (length pre + length g)%nat ->
  exists g',
    length g' = (length g + length (List.filter pred rest))%nat /\
    compact (Some p) pred (length rest) picker placer s =
    (Ret (placer + N.of_nat (length (List.filter (fun x => negb (pred x)) rest))),
     mkState (<[p := pre ++ (Some <$> List.filter (fun x => negb (pred x)) rest)
                      ++ (Some <$> g') ++ post]> (heap s)) (objs s)).
Proof.
  induction rest as [|x rest IH]; intros s p pre g post picker placer E Hg Hpl Hpi; simpl.
  - exists g. split; [lia|]. unfold ret. rewrite N.add_0_r.
    destruct s as [h ob]; simpl in *. by rewrite insert_id.
  - assert (E1 : heap s !! p = Some ((pre ++ (Some <$> g)) ++ Some x :: (Some <$> rest) ++ post)).
    { rewrite E. by rewrite <- app_assoc. }
    assert (Hpi1 : N.to_nat picker = length (pre ++ (Some <$> g))).
    { rewrite length_app, length_fmap. lia. }
    rewrite (bind_ret _ _ _ _ _ (read_at_ok _ _ _ _ _ _ E1 Hpi1)).
    destruct (pred x) eqn:Hx; simpl.
    + destruct (IH s p pre (g ++ [x]) post (N.succ picker) placer) as (g' & Hlen & Hrun).
      * rewrite E. rewrite fmap_app. by rewrite <- !app_assoc.
      * by destruct g.
      * done.
      * rewrite length_app. simpl. lia.
      * exists g'. split; [|done]. rewrite Hlen, length_app. simpl. lia.
    + destruct g as [|g0 g1]; [done|].
      assert (E2 : heap s !! p =
                   Some (pre ++ Some g0 :: (Some <$> g1) ++ Some x :: (Some <$> rest) ++ post)).
      { by rewrite E. }
      assert (Hpi2 : N.to_nat picker = (length pre + S (length (Some <$> g1)))%nat).
      { rewrite length_fmap. simpl in Hpi. lia. }
      rewrite (bind_ret _ _ _ _ _ (move_assign_at_ok _ _ _ _ _ _ _ _ _ E2 Hpl Hpi2)).
      set (s1 := mkState _ _).
      destruct (IH s1 p (pre ++ [Some x]) (g1 ++ [moved_from x]) post
                  (N.succ picker) (N.succ placer)) as (g' & Hlen & Hrun).
      * simpl. rewrite lookup_insert_eq. rewrite fmap_app. simpl.
        by rewrite <- !app_assoc.
      * by destruct g1.
      * rewrite length_app. simpl. lia.
      * rewrite !length_app. simpl in *. lia.
      * exists g'. split.
        { rewrite Hlen, length_app. simpl. lia. }
        rewrite Hrun. subst s1. simpl. rewrite insert_insert_eq.
        f_equal; [f_equal; lia|]. by rewrite <- !app_assoc.
Qed.

Lemma print_items_ok xs : forall s p pre post i,
  heap s !! p = Some (pre ++ (Some <$> xs) ++ post) -> N.to_nat i = length pre ->
  print_items (Some p) (length xs) i s = (Ret (render_items xs), s).
Proof.
  induction xs as [|x xs IH]; intros s p pre post i E Hi; simpl; [done|].
  rewrite (bind_ret _ _ _ _ _ (read_at_ok _ _ _ _ _ _ E Hi)).
  rewrite (bind_ret _ _ _ _ _ (IH s p (pre ++ [Some x]) post (N.succ i)
             ltac:(rewrite E; by rewrite <- app_assoc)
             ltac:(rewrite length_app; simpl; lia))).
  done.
Qed.

Lemma shift_left_ok rest : forall s p pre x post k,
  heap s !! p = Some (pre ++ Some x :: (Some <$> rest) ++ post) ->
  N.to_nat k = S (length pre) ->
  for_range (length rest) k (fun k => move_assign_at (Some p) (k - 1) k) s =
  (Ret tt, mkState (<[p := pre ++ (Some <$> rest) ++ Some (shifted_last x rest) :: post]>
                      (heap s)) (objs s)).
Proof.
  induction rest as [|r rest IH]; intros s p pre x post k E Hk; simpl.
  - unfold ret. destruct s as [h ob]; simpl in *. by rewrite insert_id.
  - rewrite (bind_ret _ _ _ _ _ (move_assign_at_ok _ p pre x [] r _ (k - 1) k E
               ltac:(lia) ltac:(simpl; lia))).
    set (s1 := mkState _ _).
    rewrite (IH s1 p (pre ++ [Some r]) (moved_from r) post (N.succ k)).
    + subst s1. simpl. rewrite insert_insert_eq. by rewrite <- !app_assoc.
    + subst s1. simpl. rewrite lookup_insert_eq. by rewrite <- !app_assoc.
    + rewrite length_app. simpl. lia.
Qed.

(** The loop of [Resize]: copy-construct into the new block [q], destroy in
    the old block [p]. *)
Lemma relocate_ok xs : forall s p q preO postO preN rawN postN i,
  p <> q ->
  heap s !! p = Some (preO ++ (Some <$> xs) ++ postO) ->
  heap s !! q = Some (preN ++ rawN ++ postN) ->
  length rawN = length xs ->
  N.to_nat i = length preO -> length preN = length preO ->
  for_range (length xs) i (fun i =>
    v <- read_at (Some p) i ;;
    construct_at (Some q) i v ;;;
    destroy_at (Some p) i) s =
  (Ret tt, mkState (<[p := preO ++ replicate (length xs) None ++ postO]>
                      (<[q := preN ++ (Some <$> xs) ++ postN]> (heap s))) (objs s)).
Proof.
  induction xs as [|x xs IH]; intros s p q preO postO preN rawN postN i Hpq Ep Eq Hr Hi Hn;
    simpl.
  - destruct rawN; [|done]. unfold ret. destruct s as [h ob]; simpl in *.
    rewrite (insert_id h q) by done. by rewrite insert_id.
  - destruct rawN as [|r rawN]; [done|]. simpl in Hr.
    rewrite ?bind_assoc, (bind_ret _ _ _ _ _ (read_at_ok _ _ _ _ _ _ Ep Hi)).
    rewrite ?bind_assoc, (bind_ret _ _ _ _ _ (construct_at_ok _ q preN r x (rawN ++ postN) i Eq
               ltac:(lia))).
    set (s1 := mkState _ _).
    assert (Ep1 : heap s1 !! p = Some (preO ++ Some x :: (Some <$> xs) ++ postO)).
    { subst s1. simpl. by rewrite lookup_insert_ne. }
    rewrite ?bind_assoc, (bind_ret _ _ _ _ _ (destroy_at_ok _ _ _ _ _ _ Ep1 Hi)).
    set (s2 := mkState _ _).
    rewrite (IH s2 p q (preO ++ [None]) postO (preN ++ [Some x]) rawN postN (N.succ i)).
    + subst s2 s1. simpl. f_equal. f_equal.
      apply map_eq. intros k. rewrite !lookup_insert.
      repeat case_decide; subst; try done; by rewrite <- ?app_assoc.
    + done.
    + subst s2. simpl. rewrite lookup_insert_eq. by rewrite <- app_assoc.
    + subst s2 s1. simpl. rewrite lookup_insert_ne by done. rewrite lookup_insert_eq.
      by rewrite <- app_assoc.
    + lia.
    + rewrite length_app. simpl. lia.
    + rewrite !length_app. simpl. lia.
Qed.

(** The loop of the copy assignment: copy-construct from [other]'s block
    [p] into the block [q] of [this]. *)
Lemma copy_range_ok xs : forall s p q preO postO preN rawN postN i,
  p <> q ->
  heap s !! p = Some (preO ++ (Some <$> xs) ++ postO) ->
  heap s !! q = Some (preN ++ rawN ++ postN) ->
  length rawN = length xs ->
  N.to_nat i = length preO -> length preN = length preO ->
  for_range (length xs) i (fun i =>
    v <- read_at (Some p) i ;; construct_at (Some q) i v) s =
  (Ret tt, mkState (<[q := preN ++ (Some <$> xs) ++ postN]> (heap s)) (objs s)).
Proof.
  induction xs as [|x xs IH]; intros s p q preO postO preN rawN postN i Hpq Ep Eq Hr Hi Hn;
    simpl.
  - destruct rawN; [|done]. unfold ret. destruct s as [h ob]; simpl in *.
    by rewrite (insert_id h q).
  - destruct rawN as [|r rawN]; [done|]. simpl in Hr.
    rewrite ?bind_assoc, (bind_ret _ _ _ _ _ (read_at_ok _ _ _ _ _ _ Ep Hi)).
    rewrite ?bind_assoc, (bind_ret _ _ _ _ _ (construct_at_ok _ q preN r x (rawN ++ postN) i Eq
               ltac:(lia))).
    set (s1 := mkState _ _).
    rewrite (IH s1 p q (preO ++ [Some x]) postO (preN ++ [Some x]) rawN postN (N.succ i)).
    + subst s1. simpl. rewrite insert_insert_eq. by rewrite <- !app_assoc.
    + done.
    + subst s1. simpl. rewrite lookup_insert_ne by done. rewrite Ep.
      by rewrite <- app_assoc.
    + subst s1. simpl. rewrite lookup_insert_eq. by rewrite <- app_assoc.
    + lia.
    + rewrite length_app. simpl. lia.
    + rewrite !length_app. simpl. lia.
Qed.

End Loops.

Section Representation.
Context {T : Type} `{Element T} {A : Type} `{Allocator A}.
Local Abbreviation State := (@State T A).
Local Abbreviation ListObj := (@ListObj A).
Implicit Types (s : State) (o : ListObj) (this : loc) (p q : addr).
Implicit Types (blk pre post : list (option T)) (xs ys : list T).

Lemma max_size_bound : @max_size T _ < 2 ^ 63.
Proof.
  unfold max_size, PTRDIFF_MAX.
  eapply N.le_lt_trans; [apply N.Div0.div_le_upper_bound with (q := 2 ^ 63 - 1)|lia].
  assert (1 <= N.pos sizeof) by lia. nia.
Qed.

Lemma live_omap (l : list (option T)) :
  forallb is_live l = true -> Some <$> omap id l = l.
Proof.
  induction l as [|[x|] l IH]; simpl; intros E; try done. f_equal. by apply IH.
Qed.

Lemma raw_replicate (l : list (option T)) :
  forallb (fun x => negb (is_live x)) l = true -> l = replicate (length l) None.
Proof.
  induction l as [|[x|] l IH]; simpl; intros E; try done. f_equal. by apply IH.
Qed.

Lemma omap_Some xs : omap id (Some <$> xs) = xs.
Proof. induction xs as [|x xs IH]; simpl; [done|]. f_equal. apply IH. Qed.

Lemma block_of_length xs cap :
  (length xs <= N.to_nat cap)%nat -> length (block_of xs cap) = N.to_nat cap.
Proof. intros L. unfold block_of. rewrite length_app, length_fmap, length_replicate. lia. Qed.

Lemma take_block_of xs cap : take (length xs) (block_of xs cap) = Some <$> xs.
Proof.
  unfold block_of. rewrite take_app_length'; [done|]. by rewrite length_fmap.
Qed.

Lemma drop_block_of xs cap :
  drop (length xs) (block_of xs cap) = replicate (N.to_nat cap - length xs) None.
Proof.
  unfold block_of. rewrite drop_app_length'; [done|]. by rewrite length_fmap.
Qed.

Lemma forallb_live_Some xs : forallb is_live (Some <$> xs) = true.
Proof. by induction xs. Qed.

Lemma forallb_raw_replicate n :
  forallb (fun x : option T => negb (is_live x)) (replicate n None) = true.
Proof. by induction n. Qed.

Lemma wf_Repr s this :
  wf s this = true -> exists o, Repr s this o (elements s this).
Proof.
  unfold wf, elements, Repr. destruct (objs s !! this) as [o|]; [|done].
  intros E. exists o. apply andb_prop in E as [E Ed]. apply andb_prop in E as [Ec Em].
  apply N.leb_le in Ec, Em.
  destruct (data o) as [p|].
  - destruct (heap s !! p) as [blk|]; [|done].
    apply andb_prop in Ed as [Ed Eraw]. apply andb_prop in Ed as [El Elive].
    apply bool_decide_eq_true in El.
    assert (Hlen : length (omap id (take (N.to_nat (count o)) blk)) = N.to_nat (count o)).
    { rewrite <- (length_fmap Some), (live_omap _ Elive), length_take. lia. }
    repeat split; try done; [lia|].
    f_equal. unfold block_of. rewrite (live_omap _ Elive), Hlen.
    rewrite <- (take_drop (N.to_nat (count o)) blk) at 1. f_equal.
    rewrite (raw_replicate _ Eraw) at 1. f_equal. rewrite length_drop. lia.
  - apply N.eqb_eq in Ed. repeat split; try done. simpl. lia.
Qed.

Lemma Repr_wf s this o xs : Repr s this o xs -> wf s this = true.
Proof.
  intros (Ho & Hn & Hc & Hm & Hd). unfold wf. rewrite Ho.
  apply andb_true_intro. split.
  { apply andb_true_intro. split; by apply N.leb_le. }
  destruct (data o) as [p|]; [|by apply N.eqb_eq].
  rewrite Hd, Hn, Nat2N.id, take_block_of, drop_block_of.
  rewrite forallb_live_Some, forallb_raw_replicate, !andb_true_r.
  apply bool_decide_eq_true. apply block_of_length. lia.
Qed.

Lemma Repr_elements s this o xs : Repr s this o xs -> elements s this = xs.
Proof.
  intros (Ho & Hn & Hc & Hm & Hd). unfold elements. rewrite Ho.
  destruct (data o) as [p|].
  - by rewrite Hd, Hn, Nat2N.id, take_block_of, omap_Some.
  - destruct xs; [done|]. simpl in Hn. lia.
Qed.

Lemma Repr_inj s this o o' xs xs' :
  Repr s this o xs -> Repr s this o' xs' -> o = o' /\ xs = xs'.
Proof.
  intros R R'. pose proof (Repr_elements _ _ _ _ R). pose proof (Repr_elements _ _ _ _ R').
  destruct R as [Ho _], R' as [Ho' _]. split; congruence.
Qed.

(** An object's representation depends on its entry and its block only. *)
Lemma Repr_frame s s' this o xs :
  Repr s this o xs ->
  objs s' !! this = Some o ->
  (forall p, data o = Some p -> heap s' !! p = heap s !! p) ->
  Repr s' this o xs.
Proof.
  intros (Ho & Hn & Hc & Hm & Hd) Ho' Hh. repeat split; try done.
  destruct (data o) as [p|]; [|done]. by rewrite Hh.
Qed.

End Representation.

Section Storage.
Context {T : Type} `{Element T} {A : Type} `{Allocator A}.
Local Abbreviation State := (@State T A).
Local Abbreviation ListObj := (@ListObj A).
Implicit Types (s : State) (o : ListObj) (this : loc) (p q : addr).
Implicit Types (blk pre post : list (option T)) (xs ys : list T).

Lemma Clear_ok s this o xs :
  Repr s this o xs -> Clear this s = (Ret tt, cleared s this o).
Proof.
  intros (Ho & Hn & Hc & Hm & Hd). unfold Clear, cleared, for_loop.
  exec_field. rewrite Hn, N.sub_0_r, Nat2N.id.
  destruct (data o) as [p|] eqn:Ed.
  - erewrite bind_ret; cycle 1.
    { apply (clear_range_ok this o xs s p [] (replicate (N.to_nat (capacity o) - length xs) None)
               0 Ho Ed); [|done]. by rewrite Hd. }
    exec_field. rewrite Ed. simpl. do 3 f_equal. unfold block_of. simpl.
    rewrite <- replicate_add. f_equal. lia.
  - assert (xs = []) as -> by (destruct xs; [done|simpl in Hn; lia]).
    simpl. erewrite bind_ret by done. exec_field. by rewrite Ed.
Qed.

Lemma Repr_cleared s this o xs :
  Repr s this o xs ->
  Repr (cleared s this o) this (mkList (data o) (capacity o) 0 (dataAllocator o)) [].
Proof.
  intros (Ho & Hn & Hc & Hm & Hd). unfold cleared. repeat split; simpl; try done.
  - apply lookup_insert_eq.
  - lia.
  - destruct (data o) as [p|]; [|done]. simpl. by rewrite lookup_insert_eq.
Qed.

Lemma alloc_block_throw s this o n :
  objs s !! this = Some o -> try_allocate (dataAllocator o) n = None ->
  alloc_block this n s = (Throw bad_alloc, s).
Proof.
  intros Ho Ea. unfold alloc_block, try_allocate in *. exec_field.
  destruct (max_size <? n); [done|]. by rewrite Ea.
Qed.

Lemma alloc_block_ok s this o n a' :
  objs s !! this = Some o -> try_allocate (dataAllocator o) n = Some a' ->
  alloc_block this n s =
  (Ret (Some (fresh (dom (heap s)))),
   mkState (<[fresh (dom (heap s)) := replicate (N.to_nat n) None]> (heap s))
     (<[this := mkList (data o) (capacity o) (count o) a']> (objs s))).
Proof.
  intros Ho Ea. unfold alloc_block, try_allocate in *. exec_field.
  destruct (max_size <? n); [done|]. rewrite Ea. by exec_field.
Qed.

Lemma dealloc_block_ok s this o p blk n :
  objs s !! this = Some o -> heap s !! p = Some blk -> length blk = N.to_nat n ->
  dealloc_block this (Some p) n s =
  (Ret tt, mkState (delete p (heap s))
             (<[this := mkList (data o) (capacity o) (count o)
                          (deallocate (dataAllocator o) n)]> (objs s))).
Proof.
  intros Ho Ep Hl. unfold dealloc_block. exec_field. exec_field.
  rewrite Ep. by rewrite decide_True.
Qed.

Lemma dealloc_block_null s this o n :
  objs s !! this = Some o ->
  dealloc_block this None n s =
  (Ret tt, mkState (heap s)
             (<[this := mkList (data o) (capacity o) (count o)
                          (deallocate (dataAllocator o) n)]> (objs s))).
Proof. intros Ho. unfold dealloc_block. exec_field. by exec_field. Qed.

Lemma fresh_addr_free s : heap s !! fresh (dom (heap s)) = None.
Proof. apply not_elem_of_dom. apply is_fresh. Qed.

Lemma Resize_throw s this o xs n :
  Repr s this o xs -> count o <= n ->
  try_allocate (dataAllocator o) n = None ->
  Resize this n s = (Throw bad_alloc, s).
Proof.
  intros (Ho & Hn & Hc & Hm & Hd) Hle Ea. unfold Resize. exec_field.
  destruct (N.ltb_spec n (count o)); [lia|].
  by rewrite (bind_throw _ _ _ _ _ (alloc_block_throw _ _ _ _ Ho Ea)).
Qed.

Lemma Resize_ok s this o xs n a' :
  Repr s this o xs -> count o <= n ->
  try_allocate (dataAllocator o) n = Some a' ->
  Resize this n s = (Ret tt, resized s this o n a' xs).
Proof.
  intros (Ho & Hn & Hc & Hm & Hd) Hle Ea. unfold Resize, resized, for_loop. exec_field.
  destruct (N.ltb_spec n (count o)); [lia|].
  rewrite (bind_ret _ _ _ _ _ (alloc_block_ok _ _ _ _ _ Ho Ea)).
  pose proof (fresh_addr_free s) as Hq. set (q := fresh (dom (heap s))) in *.
  exec_field. exec_field. rewrite Hn, N.sub_0_r, Nat2N.id.
  destruct (data o) as [p|] eqn:Ed.
  - assert (Hpq : p <> q) by congruence.
    erewrite bind_ret; cycle 1.
    { apply (relocate_ok xs _ p q [] (replicate (N.to_nat (capacity o) - length xs) None)
               [] (replicate (length xs) None) (replicate (N.to_nat n - length xs) None) 0);
        simpl; try done.
      - by rewrite lookup_insert_ne.
      - rewrite lookup_insert_eq. f_equal. rewrite <- replicate_add. f_equal. lia.
      - by rewrite length_replicate. }
    exec_field.
    erewrite bind_ret; cycle 1.
    { eapply dealloc_block_ok; [obj_lookup| simpl; apply lookup_insert_eq |].
      rewrite length_app, !length_replicate. lia. }
    exec_field. exec_field. f_equal. f_equal.
    + apply map_eq. intros k. simpl.
      rewrite ?lookup_delete, ?lookup_insert, ?lookup_delete.
      repeat case_decide; subst; try done.
    + by rewrite !insert_insert_eq.
  - assert (xs = []) as -> by (destruct xs; [done|simpl in Hn; lia]).
    simpl. erewrite bind_ret by done. exec_field.
    erewrite bind_ret; cycle 1.
    { apply dealloc_block_null. obj_lookup. }
    exec_field. exec_field. f_equal. f_equal.
    + simpl. unfold block_of. simpl. do 2 f_equal. lia.
    + by rewrite !insert_insert_eq.
Qed.

Lemma Repr_resized s this o xs n a' :
  Repr s this o xs -> count o <= n -> n <= max_size ->
  Repr (resized s this o n a' xs) this
    (mkList (Some (fresh (dom (heap s)))) n (count o) (deallocate a' (capacity o))) xs.
Proof.
  intros (Ho & Hn & Hc & Hm & Hd) Hle Hmax. unfold resized. repeat split; simpl; try done.
  - apply lookup_insert_eq.
  - by rewrite lookup_insert_eq.
Qed.

End Storage.

Section AddRemoveAt.
Context {T : Type} `{Element T} {A : Type} `{Allocator A}.
Local Abbreviation State := (@State T A).
Local Abbreviation ListObj := (@ListObj A).
Implicit Types (s : State) (o : ListObj) (this : loc) (p q : addr).
Implicit Types (blk pre post : list (option T)) (xs ys : list T).

Lemma replicate_pos {X} (x : X) (n : nat) :
  (0 < n)%nat -> replicate n x = x :: replicate (n - 1) x.
Proof. destruct n; [lia|]. intros _. simpl. by rewrite Nat.sub_0_r. Qed.

Lemma size_small (n : N) : n < SIZE_MOD -> n mod SIZE_MOD = n.
Proof. apply N.mod_small. Qed.

Lemma size_sub_small (a b : N) : b <= a -> a < SIZE_MOD -> size_sub a b = a - b.
Proof.
  intros Hle Ha. unfold size_sub. rewrite (N.mod_small b) by lia.
  replace (a + SIZE_MOD - b) with ((a - b) + 1 * SIZE_MOD) by lia.
  rewrite N.Div0.mod_add. apply N.mod_small. lia.
Qed.

Lemma max_size_lt_mod : @max_size T _ < SIZE_MOD.
Proof. pose proof max_size_bound. unfold SIZE_MOD. lia. Qed.

Lemma Capacity_set_noop s this o n :
  objs s !! this = Some o -> n <= capacity o -> Capacity_set this n s = (Ret tt, s).
Proof.
  intros Ho Hle. unfold Capacity_set. exec_field.
  by destruct (N.leb_spec n (capacity o)); [|lia].
Qed.

Lemma Capacity_set_grow s this o n :
  objs s !! this = Some o -> capacity o < n ->
  Capacity_set this n s = Resize this n s.
Proof.
  intros Ho Hlt. unfold Capacity_set. exec_field.
  by destruct (N.leb_spec n (capacity o)); [lia|].
Qed.

Lemma ShrinkToFit_noop s this o :
  objs s !! this = Some o -> capacity o = count o -> ShrinkToFit this s = (Ret tt, s).
Proof.
  intros Ho E. unfold ShrinkToFit. exec_field. exec_field. by rewrite decide_True.
Qed.

Lemma ShrinkToFit_shrink s this o :
  objs s !! this = Some o -> capacity o <> count o ->
  ShrinkToFit this s = Resize this (count o) s.
Proof.
  intros Ho E. unfold ShrinkToFit. exec_field. exec_field. by rewrite decide_False.
Qed.

Lemma add_tail_ok s this o xs v :
  Repr s this o xs -> count o < capacity o ->
  exists s',
    add_tail this v s = (Ret tt, s') /\
    Repr s' this (mkList (data o) (capacity o) (count o + 1) (dataAllocator o)) (xs ++ [v]).
Proof.
  intros (Ho & Hn & Hc & Hm & Hd) Hlt. unfold add_tail.
  pose proof max_size_lt_mod.
  destruct (data o) as [p|] eqn:Ed; [|lia].
  eexists. split.
  - exec_field. exec_field. exec_field. rewrite Ed.
    apply (construct_at_ok _ p (Some <$> xs) None v
             (replicate (N.to_nat (capacity o) - length xs - 1) None)).
    + simpl. rewrite Hd. f_equal. unfold block_of. f_equal.
      apply replicate_pos. lia.
    + rewrite length_fmap. lia.
  - unfold size_add. rewrite N.mod_small by lia.
    repeat split; simpl; try done.
    + rewrite ?Ed. apply lookup_insert_eq.
    + rewrite length_app. simpl. lia.
    + lia.
    + rewrite lookup_insert_eq. f_equal. unfold block_of.
      rewrite fmap_app, length_app, <- app_assoc. simpl. do 3 f_equal. lia.
Qed.

Lemma Add_unfold this v s :
  Add this (Copy (Obj v)) s =
  (c <- rd_capacity this ;; n <- rd_count this ;;
   (if decide (c = n) then Capacity_set this (N.max (size_mul 2 c) 1) else ret tt) ;;;
   add_tail this v) s.
Proof. done. Qed.

Lemma grown_capacity (c : N) :
  c <= @max_size T _ ->
  N.max (size_mul 2 c) 1 = N.max (2 * c) 1 /\ c < N.max (2 * c) 1.
Proof.
  intros Hc. pose proof max_size_bound. unfold size_mul, SIZE_MOD.
  rewrite N.mod_small by lia. lia.
Qed.

Lemma Add_room s this o xs v :
  Repr s this o xs -> count o < capacity o ->
  exists s',
    Add this (Copy (Obj v)) s = (Ret tt, s') /\
    Repr s' this (mkList (data o) (capacity o) (count o + 1) (dataAllocator o)) (xs ++ [v]).
Proof.
  intros R Hlt. destruct (add_tail_ok _ _ _ _ v R Hlt) as (s' & E & R').
  exists s'. split; [|done]. destruct R as (Ho & _).
  rewrite Add_unfold. exec_field. exec_field.
  rewrite decide_False by lia. by erewrite bind_ret by done.
Qed.

Lemma Add_grow_throw s this o xs v :
  Repr s this o xs -> count o = capacity o ->
  try_allocate (dataAllocator o) (N.max (2 * capacity o) 1) = None ->
  Add this (Copy (Obj v)) s = (Throw bad_alloc, s).
Proof.
  intros R Heq Ea. pose proof R as (Ho & Hn & Hc & Hm & Hd).
  destruct (grown_capacity _ Hm) as [Eg Hg].
  rewrite Add_unfold. exec_field. exec_field.
  rewrite decide_True by done. rewrite Eg.
  erewrite bind_throw; [done|].
  rewrite (Capacity_set_grow _ _ _ _ Ho Hg).
  apply (Resize_throw _ _ _ _ _ R); [lia|done].
Qed.

Lemma Add_grow s this o xs v a' :
  Repr s this o xs -> count o = capacity o ->
  try_allocate (dataAllocator o) (N.max (2 * capacity o) 1) = Some a' ->
  exists s' o',
    Add this (Copy (Obj v)) s = (Ret tt, s') /\ Repr s' this o' (xs ++ [v]) /\
    capacity o' = N.max (2 * capacity o) 1.
Proof.
  intros R Heq Ea. pose proof R as (Ho & Hn & Hc & Hm & Hd).
  destruct (grown_capacity _ Hm) as [Eg Hg].
  assert (Hmax : N.max (2 * capacity o) 1 <= max_size).
  { unfold try_allocate in Ea. destruct (N.ltb_spec max_size (N.max (2 * capacity o) 1)); [done|lia]. }
  assert (Hcn : count o <= N.max (2 * capacity o) 1) by lia.
  pose proof (Repr_resized _ _ _ _ _ a' R Hcn Hmax) as R1.
  destruct (add_tail_ok _ _ _ _ v R1) as (s' & E & R'); [simpl; lia|].
  exists s'. eexists. split; [|split; [exact R'|done]].
  rewrite Add_unfold. exec_field. exec_field.
  rewrite decide_True by done. rewrite Eg.
  erewrite bind_ret; [exact E|].
  rewrite (Capacity_set_grow _ _ _ _ Ho Hg).
  apply (Resize_ok _ _ _ _ _ _ R); [lia|done].
Qed.

Lemma RemoveAt_throw s this o index :
  objs s !! this = Some o -> count o <= index ->
  RemoveAt this index s = (Throw (out_of_range index), s).
Proof.
  intros Ho Hle. unfold RemoveAt. exec_field.
  destruct (N.leb_spec (count o) index); [|lia]. by rewrite orb_true_r.
Qed.

Lemma RemoveAt_ok s this o xs1 x xs2 :
  Repr s this o (xs1 ++ x :: xs2) ->
  exists s',
    RemoveAt this (N.of_nat (length xs1)) s = (Ret tt, s') /\
    Repr s' this (mkList (data o) (capacity o) (count o - 1) (dataAllocator o)) (xs1 ++ xs2).
Proof.
  intros (Ho & Hn & Hc & Hm & Hd). pose proof max_size_lt_mod.
  rewrite length_app in Hn. simpl in Hn.
  destruct (data o) as [p|] eqn:Ed; [|lia].
  set (raw := replicate (N.to_nat (capacity o) - length (xs1 ++ x :: xs2)) (@None T)).
  assert (Hd' : heap s !! p = Some ((Some <$> xs1) ++ Some x :: (Some <$> xs2) ++ raw)).
  { rewrite Hd. unfold block_of. rewrite fmap_app, <- app_assoc. done. }
  eexists. split.
  - unfold RemoveAt, for_loop. exec_field.
    destruct (N.leb_spec (count o) (N.of_nat (length xs1))); [lia|].
    rewrite (proj2 (N.ltb_ge _ 0)) by lia. cbn [orb].
    exec_field. rewrite Ed.
    replace (N.to_nat (count o - (N.of_nat (length xs1) + 1))) with (length xs2) by lia.
    erewrite bind_ret; cycle 1.
    { apply (shift_left_ok xs2 s p (Some <$> xs1) x raw); [done|].
      rewrite length_fmap. lia. }
    exec_field. exec_field.
    rewrite size_sub_small by lia.
    apply (destroy_at_ok _ p ((Some <$> xs1) ++ (Some <$> xs2)) (shifted_last x xs2) raw).
    + simpl. rewrite lookup_insert_eq. by rewrite <- app_assoc.
    + rewrite length_app, !length_fmap. lia.
  - repeat split; simpl; try done.
    + rewrite ?Ed. apply lookup_insert_eq.
    + pose proof (length_app xs1 xs2). lia.
    + lia.
    + rewrite insert_insert_eq, lookup_insert_eq. f_equal. unfold block_of.
      rewrite fmap_app, <- !app_assoc. do 2 f_equal. subst raw.
      rewrite !length_app. simpl.
      rewrite (replicate_pos _ (N.to_nat (capacity o) - (length xs1 + length xs2))) by lia.
      do 2 f_equal. lia.
Qed.

Lemma subscript_ok s this o xs i x :
  Repr s this o xs -> xs !! N.to_nat i = Some x ->
  subscript this i s = (Ret x, s).
Proof.
  intros (Ho & Hn & Hc & Hm & Hd) Hx. unfold subscript. exec_field.
  destruct (data o) as [p|].
  - unfold read_at, slot. rewrite Hd. unfold block_of.
    rewrite lookup_app_l by (rewrite length_fmap; by eapply lookup_lt_Some).
    by rewrite list_lookup_fmap, Hx.
  - destruct xs; [done|simpl in Hn; lia].
Qed.

End AddRemoveAt.

Section RemoveIfPrint.
Context {T : Type} `{Element T} {A : Type} `{Allocator A}.
Local Abbreviation State := (@State T A).
Local Abbreviation ListObj := (@ListObj A).
Implicit Types (s : State) (o : ListObj) (this : loc) (p q : addr).
Implicit Types (blk pre post : list (option T)) (xs ys : list T).

Lemma keep_no_match pred xs : List.filter pred xs = [] -> keep pred xs = xs.
Proof.
  unfold keep. induction xs as [|x xs IH]; simpl; [done|].
  destruct (pred x); simpl; [done|]. intros E. by rewrite IH.
Qed.

Lemma filter_keep_length pred xs :
  (length (List.filter pred xs) + length (keep pred xs) = length xs)%nat.
Proof.
  unfold keep. induction xs as [|x xs IH]; simpl; [done|].
  destruct (pred x); simpl; lia.
Qed.

Lemma FindIf_none s this o xs pred :
  Repr s this o xs -> List.filter pred xs = [] ->
  FindIf this pred s = (Ret None, s).
Proof.
  intros (Ho & Hn & Hc & Hm & Hd) Hf. unfold FindIf. exec_field. exec_field.
  rewrite Hn, Nat2N.id. destruct (data o) as [p|].
  - apply (find_from_none pred xs s p [] (replicate (N.to_nat (capacity o) - length xs) None));
      done.
  - by destruct xs; [|simpl in Hn; lia].
Qed.

Lemma FindIf_some s this o xs1 x xs2 pred :
  Repr s this o (xs1 ++ x :: xs2) -> List.filter pred xs1 = [] -> pred x = true ->
  FindIf this pred s = (Ret (Some (N.of_nat (length xs1))), s).
Proof.
  intros (Ho & Hn & Hc & Hm & Hd) Hf Hx. unfold FindIf. exec_field. exec_field.
  rewrite Hn, Nat2N.id. destruct (data o) as [p|].
  - apply (find_from_some pred xs1 x xs2 s p []
             (replicate (N.to_nat (capacity o) - length (xs1 ++ x :: xs2)) None)); done.
  - rewrite length_app in Hn. simpl in Hn. lia.
Qed.

Lemma RemoveIf_ok s this o xs pred :
  Repr s this o xs ->
  exists s',
    RemoveIf this pred s = (Ret (N.of_nat (length (List.filter pred xs))), s') /\
    Repr s' this
      (mkList (data o) (capacity o) (N.of_nat (length (keep pred xs))) (dataAllocator o))
      (keep pred xs).
Proof.
  intros R. pose proof R as (Ho & Hn & Hc & Hm & Hd). pose proof max_size_lt_mod as Hmod.
  destruct (first_match_split pred xs) as [Hf|(xs1 & x & xs2 & -> & Hf & Hx)].
  - exists s. unfold RemoveIf. rewrite (bind_ret _ _ _ _ _ (FindIf_none _ _ _ _ _ R Hf)).
    rewrite Hf, (keep_no_match _ _ Hf), <- Hn. split; [done|]. by destruct o.
  - rewrite length_app in Hn. simpl in Hn.
    destruct (data o) as [p|] eqn:Ed; [|lia].
    set (raw := replicate (N.to_nat (capacity o) - length (xs1 ++ x :: xs2)) (@None T)).
    assert (Hd' : heap s !! p =
                  Some ((Some <$> xs1) ++ (Some <$> [x]) ++ (Some <$> xs2) ++ raw)).
    { rewrite Hd. unfold block_of. rewrite fmap_app, <- app_assoc. done. }
    destruct (compact_ok pred xs2 s p (Some <$> xs1) [x] raw
                (N.of_nat (length xs1) + 1) (N.of_nat (length xs1)) Hd')
      as (g & Hg & Hrun); [done|rewrite length_fmap; lia|rewrite length_fmap; simpl; lia|].
    fold (keep pred xs2) in Hrun.
    assert (Ekeep : keep pred (xs1 ++ x :: xs2) = xs1 ++ keep pred xs2).
    { unfold keep. rewrite List.filter_app. simpl. rewrite Hx. simpl.
      f_equal. by apply keep_no_match. }
    assert (Efilt : List.filter pred (xs1 ++ x :: xs2) = x :: List.filter pred xs2).
    { rewrite List.filter_app, Hf. simpl. by rewrite Hx. }
    pose proof (filter_keep_length pred xs2) as Hpart. simpl in Hg.
    rewrite Ekeep, Efilt.
    eexists. split.
    + unfold RemoveIf, for_loop.
      rewrite (bind_ret _ _ _ _ _ (FindIf_some _ _ _ _ _ _ _ R Hf Hx)).
      exec_field. rewrite Ed. exec_field.
      replace (N.to_nat (count o - (N.of_nat (length xs1) + 1))) with (length xs2) by lia.
      rewrite (bind_ret _ _ _ _ _ Hrun).
      replace (N.to_nat (count o - (N.of_nat (length xs1) + N.of_nat (length (keep pred xs2)))))
        with (length g) by lia.
      erewrite bind_ret; cycle 1.
      { apply (destroy_range_ok g _ p ((Some <$> xs1) ++ (Some <$> keep pred xs2)) raw).
        - simpl. rewrite lookup_insert_eq. by rewrite <- app_assoc.
        - rewrite length_app, !length_fmap. lia. }
      exec_field.
      rewrite (size_sub_small (count o)
                 (N.of_nat (length xs1) + N.of_nat (length (keep pred xs2)))) by lia.
      rewrite size_sub_small by lia.
      erewrite bind_ret by (apply wr_count_ok; obj_lookup).
      unfold ret. simpl. f_equal. f_equal. lia.
    + repeat split; simpl; rewrite ?Ed; try done.
      * replace (count o - (count o - (N.of_nat (length xs1) + N.of_nat (length (keep pred xs2)))))
          with (N.of_nat (length (xs1 ++ keep pred xs2))) by (rewrite length_app; lia).
        apply lookup_insert_eq.
      * rewrite length_app. lia.
      * rewrite insert_insert_eq, lookup_insert_eq. f_equal. unfold block_of.
        rewrite fmap_app, <- !app_assoc. do 2 f_equal. subst raw.
        rewrite <- replicate_add. f_equal. rewrite !length_app. simpl. lia.
Qed.

(** With a predicate that does not read the store the two forms of the
    loops agree; so [Remove] of an object of its own is [RemoveIf] with the
    comparison to its value. *)
Lemma find_from_by_pure d (pred : T -> bool) n : forall i s,
  find_from_by d (fun e => ret (pred e)) n i s = find_from d pred n i s.
Proof.
  induction n as [|n IH]; intros i s; simpl; [done|].
  destruct (read_at d i s) as [[v|e|f] s1] eqn:E.
  - rewrite !(bind_ret _ _ _ _ _ E).
    rewrite (bind_ret (ret (pred v)) _ s1 (pred v) s1 eq_refl).
    destruct (pred v); [done|]. apply IH.
  - by rewrite !(bind_throw _ _ _ _ _ E).
  - by rewrite !(bind_fault _ _ _ _ _ E).
Qed.

Lemma compact_by_pure d (pred : T -> bool) n : forall picker placer s,
  compact_by d (fun e => ret (pred e)) n picker placer s = compact d pred n picker placer s.
Proof.
  induction n as [|n IH]; intros picker placer s; simpl; [done|].
  destruct (read_at d picker s) as [[v|e|f] s1] eqn:E.
  - rewrite !(bind_ret _ _ _ _ _ E).
    rewrite (bind_ret (ret (pred v)) _ s1 (pred v) s1 eq_refl).
    destruct (pred v); simpl; [apply IH|].
    destruct (move_assign_at d placer picker s1) as [[[]|e|f] s2] eqn:Em.
    + rewrite !(bind_ret _ _ _ _ _ Em). apply IH.
    + by rewrite !(bind_throw _ _ _ _ _ Em).
    + by rewrite !(bind_fault _ _ _ _ _ Em).
  - by rewrite !(bind_throw _ _ _ _ _ E).
  - by rewrite !(bind_fault _ _ _ _ _ E).
Qed.

Lemma bind_ext {X Y} (m m' : M State X) (k k' : X -> M State Y) s :
  (forall s, m s = m' s) -> (forall x s, k x s = k' x s) ->
  bind m k s = bind m' k' s.
Proof.
  intros Hm Hk. unfold bind. rewrite Hm.
  destruct (m' s) as [[x|e|f] s1]; [apply Hk|done|done].
Qed.

Lemma RemoveIf_by_pure this (pred : T -> bool) s :
  RemoveIf_by this (fun e => ret (pred e)) s = RemoveIf this pred s.
Proof.
  unfold RemoveIf_by, RemoveIf, FindIf_by, FindIf. apply bind_ext.
  - intros s0. apply bind_ext; [done|]. intros d s1.
    apply bind_ext; [done|]. intros n s2. apply find_from_by_pure.
  - intros [first|] s0; [|done]. apply bind_ext; [done|]. intros d s1.
    apply bind_ext; [done|]. intros n s2.
    apply bind_ext; [intros; apply compact_by_pure|done].
Qed.

Lemma Remove_Obj this (v : T) s :
  Remove this (Obj v) s = RemoveIf this (fun e => elem_eqb e v) s.
Proof. apply (RemoveIf_by_pure this (fun e => elem_eqb e v)). Qed.

Lemma Print_ok s this o xs x :
  Repr s this o (xs ++ [x]) -> Print this s = (Ret (render xs x), s).
Proof.
  intros (Ho & Hn & Hc & Hm & Hd). pose proof max_size_lt_mod as Hmod.
  rewrite length_app in Hn. simpl in Hn.
  destruct (data o) as [p|] eqn:Ed; [|lia].
  set (raw := replicate (N.to_nat (capacity o) - length (xs ++ [x])) (@None T)).
  assert (Hd' : heap s !! p = Some ([] ++ (Some <$> xs) ++ Some x :: raw)).
  { rewrite Hd. unfold block_of. rewrite fmap_app, <- app_assoc. done. }
  unfold Print. exec_field. exec_field. rewrite Ed.
  rewrite size_sub_small by lia.
  replace (N.to_nat (count o - 1)) with (length xs) by lia.
  rewrite (bind_ret _ _ _ _ _ (print_items_ok xs s p [] _ 0 Hd' eq_refl)).
  exec_field. rewrite size_sub_small by lia.
  erewrite bind_ret; [done|].
  apply (read_at_ok s p (Some <$> xs) x raw); [done|]. rewrite length_fmap. lia.
Qed.

Lemma size_sub_0_1 : exists m, N.to_nat (size_sub 0 1) = S m.
Proof.
  exists (Nat.pred (N.to_nat (size_sub 0 1))).
  assert (0 < size_sub 0 1) by (by vm_compute). lia.
Qed.

Lemma Print_empty s this o :
  Repr s this o [] -> Print this s = (Fault (BadRead 0), s).
Proof.
  intros (Ho & Hn & Hc & Hm & Hd). change (count o = 0) in Hn.
  unfold Print. exec_field. exec_field. rewrite Hn.
  destruct size_sub_0_1 as [m ->]. simpl.
  rewrite bind_assoc. erewrite bind_fault; [done|].
  unfold read_at, slot. destruct (data o) as [p|]; [|done].
  rewrite Hd. unfold block_of. simpl.
  by destruct (N.to_nat (capacity o) - 0)%nat.
Qed.

End RemoveIfPrint.

Section TwoObjects.
Context {T : Type} `{Element T} {A : Type} `{Allocator A}.
Local Abbreviation State := (@State T A).
Local Abbreviation ListObj := (@ListObj A).
Implicit Types (s : State) (o oo : ListObj) (this other tmp : loc) (p q : addr).
Implicit Types (blk pre post : list (option T)) (xs ys : list T).

Lemma eta_obj o : mkList (data o) (capacity o) (count o) (dataAllocator o) = o.
Proof. by destruct o. Qed.

Lemma List_move_ok s this other oo :
  this <> other -> objs s !! other = Some oo ->
  List_move this other s =
  (Ret tt, mkState (heap s) (<[other := moved_out oo]> (<[this := oo]> (objs s)))).
Proof.
  intros Hne Ho. unfold List_move. do 4 exec_field.
  unfold put_obj at 1. rewrite ?bind_assoc. unfold bind at 1.
  do 3 exec_field. rewrite eta_obj. f_equal. f_equal.
  by rewrite !insert_insert_eq.
Qed.

Lemma swap_ok s first second o1 o2 :
  first <> second -> objs s !! first = Some o1 -> objs s !! second = Some o2 ->
  swap first second s =
  (Ret tt, mkState (heap s) (<[second := o1]> (<[first := o2]> (objs s)))).
Proof.
  intros Hne H1 H2. unfold swap. do 16 exec_field. f_equal. f_equal.
  destruct o1, o2. simpl.
  apply map_eq. intros k. rewrite !lookup_insert.
  repeat case_decide; subst; done.
Qed.

Lemma List_destroy_ok s this o xs :
  Repr s this o xs ->
  List_destroy this s = (Ret tt, mkState (release (data o) (heap s)) (delete this (objs s))).
Proof.
  intros R. pose proof R as (Ho & Hn & Hc & Hm & Hd). unfold List_destroy.
  rewrite (bind_ret _ _ _ _ _ (Clear_ok _ _ _ _ R)). unfold cleared.
  exec_field. exec_field.
  destruct (data o) as [p|] eqn:Ed.
  - erewrite bind_ret; cycle 1.
    { eapply dealloc_block_ok; [obj_lookup|simpl; apply lookup_insert_eq|].
      apply block_of_length. simpl. lia. }
    simpl. f_equal. f_equal.
    + by rewrite delete_insert_eq.
    + by rewrite !insert_insert_eq, delete_insert_eq.
  - erewrite bind_ret; cycle 1.
    { apply dealloc_block_null. obj_lookup. }
    simpl. f_equal. f_equal.
    by rewrite !insert_insert_eq, delete_insert_eq.
Qed.

Lemma fresh_obj_free s : objs s !! fresh (dom (objs s)) = None.
Proof. apply not_elem_of_dom. apply is_fresh. Qed.

(** Self-move-assignment gives the store back as it was. *)
Lemma move_assign_self s this o xs :
  Repr s this o xs -> move_assign this this s = (Ret tt, s).
Proof.
  intros R. pose proof R as (Ho & Hn & Hc & Hm & Hd). unfold move_assign.
  unfold bind at 1. pose proof (fresh_obj_free s) as Hf.
  set (tmp := fresh (dom (objs s))) in *.
  assert (Hne : tmp <> this) by congruence.
  rewrite (bind_ret _ _ _ _ _ (List_move_ok _ tmp this o Hne Ho)).
  erewrite bind_ret; cycle 1.
  { apply (swap_ok _ this tmp (moved_out o) o); [done|obj_lookup|obj_lookup]. }
  erewrite (List_destroy_ok _ tmp (moved_out o) []); cycle 1.
  { repeat split; simpl; try done; try lia; obj_lookup. }
  simpl. destruct s as [h ob]. simpl in *. f_equal. f_equal.
  apply map_eq. intros k. rewrite lookup_delete, !lookup_insert.
  repeat case_decide; subst; congruence.
Qed.

Lemma separate_disjoint s this other o oo :
  separate s this other = true ->
  objs s !! this = Some o -> objs s !! other = Some oo ->
  disjoint_blocks o oo.
Proof.
  unfold separate, disjoint_blocks. intros Hs H1 H2 p Hp Hq.
  rewrite H1, H2, Hp, Hq in Hs. by apply bool_decide_eq_true in Hs.
Qed.

Lemma move_assign_ok s this other o oo xs ys :
  this <> other -> Repr s this o xs -> Repr s other oo ys ->
  move_assign this other s = (Ret tt, move_assigned s this other o oo).
Proof.
  intros Hto R Ro. pose proof R as (Ho & Hn & Hc & Hm & Hd).
  pose proof Ro as (Hoo & _). unfold move_assign, move_assigned.
  unfold bind at 1. pose proof (fresh_obj_free s) as Hf.
  set (tmp := fresh (dom (objs s))) in *.
  assert (Hne : tmp <> this) by congruence.
  assert (Hne' : tmp <> other) by congruence.
  rewrite (bind_ret _ _ _ _ _ (List_move_ok _ tmp other oo Hne' Hoo)).
  erewrite bind_ret; cycle 1.
  { apply (swap_ok _ this tmp o oo); [done|obj_lookup|obj_lookup]. }
  erewrite (List_destroy_ok _ tmp o xs); cycle 1.
  { repeat split; simpl; try done; try lia; obj_lookup. }
  simpl. f_equal. f_equal.
  apply map_eq. intros k. rewrite lookup_delete, !lookup_insert.
  repeat case_decide; subst; congruence.
Qed.

Lemma Repr_move_assigned s this other o oo xs ys :
  this <> other -> Repr s this o xs -> Repr s other oo ys -> disjoint_blocks o oo ->
  Repr (move_assigned s this other o oo) this oo ys /\
  Repr (move_assigned s this other o oo) other (moved_out oo) [].
Proof.
  intros Hto (Ho & Hn & Hc & Hm & Hd) (Hoo & Hno & Hco & Hmo & Hdo) Hsep.
  unfold move_assigned. split; repeat split; simpl; try done.
  - apply lookup_insert_eq.
  - destruct (data oo) as [po|] eqn:Edo; [|done].
    destruct (data o) as [p|] eqn:Ed; simpl; [|done].
    rewrite lookup_delete_ne; [done|]. intros ->. by apply (Hsep po).
  - rewrite lookup_insert_ne by done. apply lookup_insert_eq.
  - lia.
Qed.

(** Move construction at a location [this] other than the source. *)
Lemma Repr_List_move s this other oo ys :
  this <> other -> Repr s other oo ys ->
  exists s',
    List_move this other s = (Ret tt, s') /\
    Repr s' this oo ys /\ Repr s' other (moved_out oo) [].
Proof.
  intros Hne (Hoo & Hno & Hco & Hmo & Hdo). eexists. split.
  - by apply List_move_ok.
  - split; repeat split; simpl; try done.
    + rewrite lookup_insert_ne by done. apply lookup_insert_eq.
    + apply lookup_insert_eq.
    + lia.
Qed.

End TwoObjects.

Section CopyAssign.
Context {T : Type} `{Element T} {A : Type} `{Allocator A}.
Local Abbreviation State := (@State T A).
Local Abbreviation ListObj := (@ListObj A).
Implicit Types (s : State) (o oo : ListObj) (this other tmp : loc) (p q : addr).
Implicit Types (blk pre post : list (option T)) (xs ys : list T).

Lemma copy_assign_unfold this other s :
  this <> other ->
  copy_assign this other s =
  (Clear this ;;;
   oc <- rd_capacity other ;;
   Capacity_set this oc ;;;
   copy_elements this other) s.
Proof. intros Hne. unfold copy_assign. by rewrite decide_True. Qed.

Lemma copy_elements_ok s this other o oo ys :
  this <> other -> Repr s this o [] -> Repr s other oo ys ->
  disjoint_blocks o oo -> capacity oo <= capacity o ->
  exists s',
    copy_elements this other s = (Ret tt, s') /\
    Repr s' this (mkList (data o) (capacity o) (count oo) (dataAllocator o)) ys /\
    Repr s' other oo ys.
Proof.
  intros Hne (Ho & Hn & Hc & Hm & Hd) (Hoo & Hno & Hco & Hmo & Hdo) Hsep Hcap.
  unfold copy_elements, for_loop.
  destruct ys as [|y ys'].
  - eexists. split.
    + do 3 exec_field. rewrite Hno, N.sub_0_r, Nat2N.id. simpl.
      erewrite bind_ret by done. exec_field. exec_field. done.
    + split; repeat split; simpl; try done; try lia;
        first [apply lookup_insert_eq | by rewrite lookup_insert_ne].
  - set (ys := y :: ys') in *. assert (0 < length ys)%nat as Hpos by (simpl; lia).
    destruct (data oo) as [po|] eqn:Edo; [|lia].
    destruct (data o) as [p|] eqn:Ed; [|lia].
    assert (Hpp : po <> p).
    { intros ->. by apply (Hsep p). }
    eexists. split.
    + do 3 exec_field. rewrite Edo, Ed, Hno, N.sub_0_r, Nat2N.id.
      erewrite bind_ret; cycle 1.
      { apply (copy_range_ok ys s po p []
                 (replicate (N.to_nat (capacity oo) - length ys) None) []
                 (replicate (length ys) None)
                 (replicate (N.to_nat (capacity o) - length ys) None) 0); try done.
        - rewrite Hd. unfold block_of. rewrite fmap_nil, !app_nil_l, <- replicate_add.
          change (length (@nil T)) with 0%nat. do 2 f_equal. lia.
        - by rewrite length_replicate. }
      exec_field. exec_field. done.
    + split; repeat split; simpl; rewrite ?Ed, ?Edo; try done; try lia;
        first [apply lookup_insert_eq | by rewrite lookup_insert_eq
              | by rewrite lookup_insert_ne].
Qed.

(** Copy assignment between distinct lists: it succeeds, or its allocation
    fails after [Clear] has run. *)
Lemma copy_assign_outcome s this other o oo xs ys :
  this <> other -> Repr s this o xs -> Repr s other oo ys ->
  disjoint_blocks o oo ->
  (exists s' o',
     copy_assign this other s = (Ret tt, s') /\
     Repr s' this o' ys /\ Repr s' other oo ys) \/
  (copy_assign this other s = (Throw bad_alloc, cleared s this o) /\
   Repr (cleared s this o) other oo ys /\
   capacity o < capacity oo /\
   try_allocate (dataAllocator o) (capacity oo) = None).
Proof.
  intros Hne R Ro Hsep. rewrite (copy_assign_unfold _ _ _ Hne).
  rewrite (bind_ret _ _ _ _ _ (Clear_ok _ _ _ _ R)).
  pose proof (Repr_cleared _ _ _ _ R) as R1.
  set (o1 := mkList (data o) (capacity o) 0 (dataAllocator o)) in *.
  assert (Ro1 : Repr (cleared s this o) other oo ys).
  { apply (Repr_frame s); [done| |].
    - unfold cleared. simpl. rewrite lookup_insert_ne by done. by destruct Ro.
    - intros po Hpo. unfold cleared. simpl. destruct (data o) as [p|] eqn:Ed; [|done].
      rewrite lookup_insert_ne; [done|]. intros ->. by apply (Hsep po). }
  pose proof Ro1 as (Hoo & Hno & Hco & Hmo & Hdo).
  pose proof R1 as (Ho1 & _).
  rewrite (bind_ret _ _ _ _ _ (rd_capacity_ok _ _ _ Hoo)).
  destruct (N.le_gt_cases (capacity oo) (capacity o)) as [Hle|Hgt].
  - left. rewrite (bind_ret _ _ _ _ _ (Capacity_set_noop _ _ o1 _ Ho1 Hle)).
    destruct (copy_elements_ok _ _ _ o1 oo ys Hne R1 Ro1 Hsep Hle) as (s' & E & Rt & Rot).
    by exists s', (mkList (data o1) (capacity o1) (count oo) (dataAllocator o1)).
  - assert (Eg : Capacity_set this (capacity oo) (cleared s this o) =
                 Resize this (capacity oo) (cleared s this o)).
    { by apply (Capacity_set_grow _ _ o1). }
    destruct (try_allocate (dataAllocator o) (capacity oo)) as [a'|] eqn:Ea.
    + left.
      assert (H0n : count o1 <= capacity oo) by (simpl; lia).
      pose proof (Resize_ok _ _ o1 [] _ a' R1 H0n Ea) as Er.
      pose proof (Repr_resized _ _ o1 [] _ a' R1 H0n Hmo) as R2.
      set (s2 := resized _ _ _ _ _ _) in *.
      set (o2 := mkList (Some _) _ _ _) in *.
      assert (Ro2 : Repr s2 other oo ys).
      { apply (Repr_frame (cleared s this o)); [done| |].
        - subst s2. unfold resized. simpl. by rewrite lookup_insert_ne.
        - intros po Hpo. subst s2. unfold resized. cbn [heap].
          rewrite Hpo in Hdo.
          rewrite lookup_insert_ne.
          + destruct (data o1) as [p|] eqn:Ed; [|done]. simpl.
            rewrite lookup_delete_ne; [done|]. intros ->. by apply (Hsep po).
          + intros E. pose proof (fresh_addr_free (cleared s this o)) as Hf.
            rewrite E in Hf. congruence. }
      assert (Hsep2 : disjoint_blocks o2 oo).
      { intros q Hq Hq'. subst o2. cbn [data] in Hq. injection Hq as <-.
        rewrite Hq' in Hdo. pose proof (fresh_addr_free (cleared s this o)) as Hf.
        unfold cleared in Hdo, Hf. simpl in Hdo, Hf. congruence. }
      destruct (copy_elements_ok s2 _ _ o2 oo ys Hne R2 Ro2 Hsep2 ltac:(simpl; lia))
        as (s' & E & Rt & Rot).
      exists s', (mkList (data o2) (capacity o2) (count oo) (dataAllocator o2)).
      split; [|done].
      erewrite bind_ret; [exact E|]. by rewrite Eg.
    + right. split; [|done].
      erewrite bind_throw; [done|]. rewrite Eg.
      apply (Resize_throw _ _ o1 [] _ R1); [simpl; lia|exact Ea].
Qed.

End CopyAssign.

Section Observers.
Context {T : Type} `{Element T} {A : Type} `{Allocator A}.
Local Abbreviation State := (@State T A).
Local Abbreviation ListObj := (@ListObj A).
Implicit Types (s : State) (o oo : ListObj) (this other tmp : loc) (p q : addr).
Implicit Types (xs ys : list T).

Lemma Count_Repr s this o xs :
  Repr s this o xs -> Count this s = (Ret (N.of_nat (length xs)), s).
Proof. intros (Ho & Hn & _). unfold Count. by rewrite (rd_count_ok _ _ _ Ho), Hn. Qed.

Lemma Capacity_Repr s this o xs :
  Repr s this o xs -> Capacity this s = (Ret (capacity o), s).
Proof. intros (Ho & _). unfold Capacity. by rewrite (rd_capacity_ok _ _ _ Ho). Qed.

(** [elements] lists what [operator[]] returns at the offsets below [count]. *)
Lemma elements_subscript s this i x :
  wf s this = true -> elements s this !! N.to_nat i = Some x ->
  subscript this i s = (Ret x, s).
Proof.
  intros Hwf Hx. destruct (wf_Repr _ _ Hwf) as (o & R).
  by apply (subscript_ok _ _ o (elements s this)).
Qed.

Lemma moved_intro s s' this other oo ys :
  Repr s other oo ys -> Repr s' this oo ys -> Repr s' other (moved_out oo) [] ->
  moved s s' this other.
Proof.
  intros Ro Rt Re. unfold moved.
  rewrite (Repr_elements _ _ _ _ Rt), (Repr_elements _ _ _ _ Ro), (Repr_elements _ _ _ _ Re).
  rewrite (Count_Repr _ _ _ _ Rt), (Count_Repr _ _ _ _ Ro), (Count_Repr _ _ _ _ Re).
  rewrite (Capacity_Repr _ _ _ _ Rt), (Capacity_Repr _ _ _ _ Ro), (Capacity_Repr _ _ _ _ Re).
  rewrite (Repr_wf _ _ _ _ Rt), (Repr_wf _ _ _ _ Re).
  destruct Re as (Ho & _). rewrite (rd_data_ok _ _ _ Ho).
  repeat split.
Qed.

(** [add_all] appends, provided every growth is granted. *)
Lemma add_all_ok vs : forall s this o xs,
  (forall (a : A) n, allocate a n <> None) ->
  Repr s this o xs ->
  2 * N.of_nat (length xs + length vs) <= max_size ->
  exists s' o', add_all this vs s = (Ret tt, s') /\ Repr s' this o' (xs ++ vs).
Proof.
  induction vs as [|v vs IH]; intros s this o xs Hinf R Hb; simpl.
  - exists s, o. by rewrite app_nil_r.
  - pose proof R as (Ho & Hn & Hc & Hm & Hd).
    assert (exists s1 o1, Add this (Copy (Obj v)) s = (Ret tt, s1) /\ Repr s1 this o1 (xs ++ [v]))
      as (s1 & o1 & E1 & R1).
    { destruct (N.lt_ge_cases (count o) (capacity o)) as [Hlt|Hge].
      - destruct (Add_room _ _ _ _ v R Hlt) as (s1 & E1 & R1). by exists s1, (mkList (data o) (capacity o) (count o + 1) (dataAllocator o)).
      - assert (Heq : count o = capacity o) by lia.
        destruct (try_allocate (dataAllocator o) (N.max (2 * capacity o) 1)) as [a'|] eqn:Ea.
        + destruct (Add_grow _ _ _ _ v a' R Heq Ea) as (s1 & o1 & E1 & R1 & _).
          by exists s1, o1.
        + exfalso. unfold try_allocate in Ea. simpl in Hb.
          destruct (N.ltb_spec max_size (N.max (2 * capacity o) 1)); [lia|].
          by apply (Hinf (dataAllocator o) (N.max (2 * capacity o) 1)). }
    destruct (IH s1 this o1 (xs ++ [v]) Hinf R1) as (s' & o' & E & R').
    { rewrite length_app. simpl in *. lia. }
    exists s', o'. rewrite (bind_ret _ _ _ _ _ E1). split; [done|].
    by rewrite <- app_assoc in R'.
Qed.

End Observers.

Section Properties.
Context {T : Type} `{Element T} {A : Type} `{Allocator A}.
Local Abbreviation State := (@State T A).
Local Abbreviation ListObj := (@ListObj A).
Implicit Types (s : State) (o oo : ListObj) (this other tmp : loc) (p q : addr).
Implicit Types (xs ys : list T).

(** X17: after any sequence of [Add]s on an empty list, each with a value
    that is an object of its own (no reference into the list), [Count()] is
    the number of adds and [operator[]] at [i] gives the [i]-th added value. *)
Theorem add_all_count_and_order s this (vs : list T) :
  wf s this = true -> elements s this = [] ->
  (forall (a : A) n, allocate a n <> None) ->
  2 * N.of_nat (length vs) <= @max_size T _ ->
  exists s',
    add_all this vs s = (Ret tt, s') /\
    Count this s' = (Ret (N.of_nat (length vs)), s') /\
    forall i v, vs !! i = Some v -> subscript this (N.of_nat i) s' = (Ret v, s').
Proof.
  intros Hwf He Hinf Hb. destruct (wf_Repr _ _ Hwf) as (o & R). rewrite He in R.
  destruct (add_all_ok vs s this o [] Hinf R Hb) as (s' & o' & E & R').
  simpl in R'. exists s'. split; [done|]. split; [by apply (Count_Repr _ _ o')|].
  intros i v Hv. apply (subscript_ok _ _ o' vs); [done|]. by rewrite Nat2N.id.
Qed.

(** C5: [RemoveAt(index)] throws [out_of_range] exactly when
    [index >= count], leaving the store as it was; otherwise it deletes the
    element at [index], keeps the others in order, and [Count()] drops by 1. *)
Theorem RemoveAt_spec s this index :
  wf s this = true ->
  exists n cap,
    Count this s = (Ret n, s) /\ Capacity this s = (Ret cap, s) /\
    (n <= index -> RemoveAt this index s = (Throw (out_of_range index), s)) /\
    (index < n ->
     exists s',
       RemoveAt this index s = (Ret tt, s') /\
       elements s' this = delete (N.to_nat index) (elements s this) /\
       Count this s' = (Ret (n - 1), s') /\
       Capacity this s' = (Ret cap, s') /\
       wf s' this = true).
Proof.
  intros Hwf. destruct (wf_Repr _ _ Hwf) as (o & R).
  set (xs := elements s this) in *. pose proof R as (Ho & Hn & _).
  exists (N.of_nat (length xs)), (capacity o).
  split; [by apply (Count_Repr _ _ o)|]. split; [by apply (Capacity_Repr _ _ _ xs)|].
  split.
  - intros Hle. apply (RemoveAt_throw _ _ o); [done|lia].
  - intros Hlt.
    destruct (lookup_lt_is_Some_2 xs (N.to_nat index)) as [x Hx]; [lia|].
    pose proof (take_drop_middle _ _ _ Hx) as Hsplit.
    assert (Hlen : length (take (N.to_nat index) xs) = N.to_nat index).
    { rewrite length_take. lia. }
    rewrite <- Hsplit in R.
    destruct (RemoveAt_ok _ _ _ _ _ _ R) as (s' & E & R').
    rewrite Hlen, N2Nat.id in E. exists s'. split; [done|].
    rewrite (Repr_elements _ _ _ _ R'), (Count_Repr _ _ _ _ R'), (Capacity_Repr _ _ _ _ R').
    rewrite (Repr_wf _ _ _ _ R'). simpl. repeat split.
    + symmetry. apply delete_take_drop.
    + do 2 f_equal. rewrite length_app, length_take, length_drop. lia.
Qed.

(** C4: [RemoveIf] returns the number of elements satisfying the predicate,
    [Count()] drops by that number, and the elements kept are those not
    satisfying it, in their original order. *)
Theorem RemoveIf_spec s this (pred : T -> bool) :
  wf s this = true ->
  exists n s',
    Count this s = (Ret n, s) /\
    RemoveIf this pred s =
      (Ret (N.of_nat (length (List.filter pred (elements s this)))), s') /\
    elements s' this = List.filter (fun x => negb (pred x)) (elements s this) /\
    Count this s' =
      (Ret (n - N.of_nat (length (List.filter pred (elements s this)))), s') /\
    wf s' this = true.
Proof.
  intros Hwf. destruct (wf_Repr _ _ Hwf) as (o & R).
  set (xs := elements s this) in *.
  destruct (RemoveIf_ok _ _ _ _ pred R) as (s' & E & R').
  exists (N.of_nat (length xs)), s'.
  split; [by apply (Count_Repr _ _ o)|]. split; [done|].
  rewrite (Repr_elements _ _ _ _ R'), (Count_Repr _ _ _ _ R'), (Repr_wf _ _ _ _ R').
  repeat split. do 2 f_equal. pose proof (filter_keep_length pred xs). lia.
Qed.

(** C10: self-move-assignment leaves the container (and the whole store)
    as it was. *)
Theorem move_assign_self_unchanged s this :
  wf s this = true -> move_assign this this s = (Ret tt, s).
Proof.
  intros Hwf. destruct (wf_Repr _ _ Hwf) as (o & R). by apply (move_assign_self _ _ o _ R).
Qed.

(** C9: self-copy-assignment does nothing. *)
Theorem copy_assign_self_noop s this : copy_assign this this s = (Ret tt, s).
Proof. unfold copy_assign. by rewrite decide_False by (intros Hne; by apply Hne). Qed.

(** C6: after move construction (at [dst]) or move assignment (to [this])
    from a distinct list [other], the source is empty (count 0, capacity 0,
    null storage) and the destination holds the source's former elements
    in order. *)
Theorem move_transfers_contents s dst this other :
  dst <> other -> this <> other ->
  wf s other = true -> wf s this = true -> separate s this other = true ->
  (exists s', List_move dst other s = (Ret tt, s') /\ moved s s' dst other) /\
  (exists s', move_assign this other s = (Ret tt, s') /\ moved s s' this other).
Proof.
  intros Hdo Hne Hwo Hwt Hsep. destruct (wf_Repr _ _ Hwo) as (oo & Ro). split.
  - destruct (Repr_List_move _ dst _ _ _ Hdo Ro) as (s' & E & Rt & Re).
    exists s'. split; [done|]. by apply (moved_intro _ _ _ _ oo (elements s other)).
  - destruct (wf_Repr _ _ Hwt) as (o & R).
    assert (Hd : disjoint_blocks o oo).
    { apply (separate_disjoint s this other); [done|by destruct R|by destruct Ro]. }
    destruct (Repr_move_assigned _ _ _ _ _ _ _ Hne R Ro Hd) as [Rt Re].
    eexists. split; [by apply (move_assign_ok _ _ _ _ _ _ _ Hne R Ro)|].
    by apply (moved_intro _ _ _ _ oo (elements s other)).
Qed.

(** C8: the capacity setter does nothing for a target not above the
    capacity and otherwise reallocates to exactly the target; [ShrinkToFit]
    ends with capacity equal to count; both keep [Count()] and the elements. *)
Theorem capacity_changes_keep_elements s this n :
  wf s this = true ->
  exists cap cnt,
    Capacity this s = (Ret cap, s) /\ Count this s = (Ret cnt, s) /\
    (n <= cap -> Capacity_set this n s = (Ret tt, s)) /\
    (cap < n -> alloc_succeeds s this n = true ->
     exists s',
       Capacity_set this n s = (Ret tt, s') /\
       Capacity this s' = (Ret n, s') /\ Count this s' = (Ret cnt, s') /\
       elements s' this = elements s this /\ wf s' this = true) /\
    (cap = cnt -> ShrinkToFit this s = (Ret tt, s)) /\
    (cap <> cnt -> alloc_succeeds s this cnt = true ->
     exists s',
       ShrinkToFit this s = (Ret tt, s') /\
       Capacity this s' = (Ret cnt, s') /\ Count this s' = (Ret cnt, s') /\
       elements s' this = elements s this /\ wf s' this = true).
Proof.
  intros Hwf. destruct (wf_Repr _ _ Hwf) as (o & R).
  set (xs := elements s this) in *. pose proof R as (Ho & Hn & Hc & Hm & Hd).
  exists (capacity o), (count o).
  split; [by apply (Capacity_Repr _ _ _ xs)|].
  split; [rewrite Hn; by apply (Count_Repr _ _ o)|].
  assert (Hre : forall m, count o <= m -> alloc_succeeds s this m = true ->
            exists s', Resize this m s = (Ret tt, s') /\
              Capacity this s' = (Ret m, s') /\ Count this s' = (Ret (count o), s') /\
              elements s' this = xs /\ wf s' this = true).
  { intros m Hcm Hok. unfold alloc_succeeds in Hok. rewrite Ho in Hok.
    destruct (try_allocate (dataAllocator o) m) as [a'|] eqn:Ea; [|done].
    assert (Hmm : m <= max_size).
    { unfold try_allocate in Ea. destruct (N.ltb_spec max_size m); [done|lia]. }
    pose proof (Repr_resized _ _ _ _ _ a' R Hcm Hmm) as R'.
    exists (resized s this o m a' xs). split; [by apply (Resize_ok _ _ _ _ _ _ R)|].
    rewrite (Capacity_Repr _ _ _ _ R'), (Count_Repr _ _ _ _ R'), <- Hn.
    rewrite (Repr_elements _ _ _ _ R'), (Repr_wf _ _ _ _ R'). done. }
  repeat split.
  - intros Hle. by apply (Capacity_set_noop _ _ o).
  - intros Hlt Hok. rewrite (Capacity_set_grow _ _ o) by done. apply Hre; [lia|done].
  - intros Heq. by apply (ShrinkToFit_noop _ _ o).
  - intros Hneq Hok. rewrite (ShrinkToFit_shrink _ _ o) by done. apply Hre; [lia|done].
Qed.

End Properties.

Section FailureAtomicity.
Context {T : Type} `{Element T} {A : Type} `{Allocator A}.
Local Abbreviation State := (@State T A).
Local Abbreviation ListObj := (@ListObj A).
Implicit Types (s : State) (o oo : ListObj) (this other tmp : loc) (p q : addr).
Implicit Types (xs ys : list T).

Lemma Add_outcome s this o xs v :
  Repr s this o xs ->
  (exists s', Add this (Copy (Obj v)) s = (Ret tt, s') /\ wf s' this = true) \/
  Add this (Copy (Obj v)) s = (Throw bad_alloc, s).
Proof.
  intros R. pose proof R as (Ho & Hn & Hc & Hm & Hd).
  destruct (N.lt_ge_cases (count o) (capacity o)) as [Hlt|Hge].
  - left. destruct (Add_room _ _ _ _ v R Hlt) as (s' & E & R').
    exists s'. split; [done|]. by apply (Repr_wf _ _ _ _ R').
  - assert (Heq : count o = capacity o) by lia.
    destruct (try_allocate (dataAllocator o) (N.max (2 * capacity o) 1)) as [a'|] eqn:Ea.
    + left. destruct (Add_grow _ _ _ _ v a' R Heq Ea) as (s' & o' & E & R' & _).
      exists s'. split; [done|]. by apply (Repr_wf _ _ _ _ R').
    + right. by apply (Add_grow_throw _ _ o xs).
Qed.

Lemma Resize_outcome s this o xs n :
  Repr s this o xs -> count o <= n ->
  (exists s', Resize this n s = (Ret tt, s') /\ wf s' this = true) \/
  Resize this n s = (Throw bad_alloc, s).
Proof.
  intros R Hle. destruct (try_allocate (dataAllocator o) n) as [a'|] eqn:Ea.
  - left. exists (resized s this o n a' xs). split; [by apply (Resize_ok _ _ _ _ _ _ R)|].
    assert (Hmm : n <= max_size).
    { unfold try_allocate in Ea. destruct (N.ltb_spec max_size n); [done|lia]. }
    apply (Repr_wf _ _ _ _ (Repr_resized _ _ _ _ _ a' R Hle Hmm)).
  - right. by apply (Resize_throw _ _ o xs).
Qed.

(** C2, amended: for the failures the container itself signals, a refused
    allocation ([bad_alloc]) and [out_of_range], with [Add] and [Remove]
    given an object of their own (no reference into the list) and an element
    type whose copy, move and destructor do not throw: every mutating
    operation on a well-formed list ends normally with the invariant intact
    or throws; when it throws the store is exactly what it was, except for a
    copy assignment from another list, which has by then emptied the
    destination: its count is 0, its capacity and the source are unchanged,
    and both invariants hold.  Within these bounds no operation runs into
    undefined behaviour. *)
Theorem mutation_succeeds_or_fails_cleanly s this (op : mut_op) :
  wf s this = true -> operands_ok s this op = true ->
  exists r s',
    run_op this op s = (r, s') /\
    match r with
    | Ret _ => wf s' this = true
    | Throw _ => after_failure s s' this op
    | Fault _ => False
    end.
Proof.
  intros Hwf Hops. destruct (wf_Repr _ _ Hwf) as (o & R).
  set (xs := elements s this) in *. pose proof R as (Ho & Hn & Hc & Hm & Hd).
  destruct op as [v|index|v|pred| |n| |other|other]; simpl.
  - destruct (Add_outcome _ _ _ _ v R) as [(s' & E & W)|E].
    + by exists (Ret tt), s'.
    + by exists (Throw bad_alloc), s.
  - destruct (N.lt_ge_cases index (count o)) as [Hlt|Hge].
    + destruct (lookup_lt_is_Some_2 xs (N.to_nat index)) as [x Hx]; [lia|].
      pose proof (take_drop_middle _ _ _ Hx) as Hsplit.
      assert (Hlen : length (take (N.to_nat index) xs) = N.to_nat index).
      { rewrite length_take. lia. }
      rewrite <- Hsplit in R.
      destruct (RemoveAt_ok _ _ _ _ _ _ R) as (s' & E & R').
      rewrite Hlen, N2Nat.id in E. exists (Ret tt), s'. split; [done|].
      by apply (Repr_wf _ _ _ _ R').
    + exists (Throw (out_of_range index)), s. split; [|done].
      by apply (RemoveAt_throw _ _ o).
  - destruct (RemoveIf_ok _ _ _ _ (fun e => elem_eqb e v) R) as (s' & E & R').
    exists (Ret tt), s'. split; [|by apply (Repr_wf _ _ _ _ R')].
    rewrite <- Remove_Obj in E. by rewrite (bind_ret _ _ _ _ _ E).
  - destruct (RemoveIf_ok _ _ _ _ pred R) as (s' & E & R').
    exists (Ret tt), s'. split; [|by apply (Repr_wf _ _ _ _ R')].
    by rewrite (bind_ret _ _ _ _ _ E).
  - exists (Ret tt), (cleared s this o). split; [by apply (Clear_ok _ _ _ xs)|].
    apply (Repr_wf _ _ _ _ (Repr_cleared _ _ _ _ R)).
  - destruct (N.le_gt_cases n (capacity o)) as [Hle|Hgt].
    + exists (Ret tt), s. split; [by apply (Capacity_set_noop _ _ o)|done].
    + rewrite (Capacity_set_grow _ _ o) by done.
      destruct (Resize_outcome _ _ _ _ n R ltac:(lia)) as [(s' & E & W)|E].
      * by exists (Ret tt), s'.
      * by exists (Throw bad_alloc), s.
  - destruct (decide (capacity o = count o)) as [Heq|Hneq].
    + exists (Ret tt), s. split; [by apply (ShrinkToFit_noop _ _ o)|done].
    + rewrite (ShrinkToFit_shrink _ _ o) by done.
      destruct (Resize_outcome _ _ _ _ (count o) R ltac:(lia)) as [(s' & E & W)|E].
      * by exists (Ret tt), s'.
      * by exists (Throw bad_alloc), s.
  - destruct (decide (this = other)) as [<-|Hne].
    { exists (Ret tt), s. split; [|done]. unfold copy_assign.
      by rewrite decide_False by (intros Hne; by apply Hne). }
    unfold operands_ok, operand_ok in Hops.
    rewrite bool_decide_eq_false_2 in Hops by done. simpl in Hops.
    apply andb_prop in Hops as [Hwo Hsep].
    destruct (wf_Repr _ _ Hwo) as (oo & Ro).
    assert (Hdj : disjoint_blocks o oo).
    { apply (separate_disjoint s this other); [done|done|by destruct Ro]. }
    destruct (copy_assign_outcome _ _ _ _ _ _ _ Hne R Ro Hdj)
      as [(s' & o' & E & Rt & Rot)|(E & Rot & _)].
    + exists (Ret tt), s'. split; [done|]. by apply (Repr_wf _ _ _ _ Rt).
    + exists (Throw bad_alloc), (cleared s this o). split; [done|].
      pose proof (Repr_cleared _ _ _ _ R) as Rc. unfold after_failure.
      rewrite (Repr_elements _ _ _ _ Rc), (Count_Repr _ _ _ _ Rc).
      rewrite (Capacity_Repr _ _ _ _ Rc), (Capacity_Repr _ _ _ _ R).
      rewrite (Repr_wf _ _ _ _ Rc), (Repr_elements _ _ _ _ Rot), (Repr_wf _ _ _ _ Rot).
      done.
  - destruct (decide (this = other)) as [<-|Hne].
    { exists (Ret tt), s. split; [by apply (move_assign_self _ _ o xs)|done]. }
    unfold operands_ok, operand_ok in Hops.
    rewrite bool_decide_eq_false_2 in Hops by done. simpl in Hops.
    apply andb_prop in Hops as [Hwo Hsep].
    destruct (wf_Repr _ _ Hwo) as (oo & Ro).
    assert (Hdj : disjoint_blocks o oo).
    { apply (separate_disjoint s this other); [done|done|by destruct Ro]. }
    destruct (Repr_move_assigned _ _ _ _ _ _ _ Hne R Ro Hdj) as [Rt Re].
    exists (Ret tt), (move_assigned s this other o oo).
    split; [by apply (move_assign_ok _ _ _ _ _ xs (elements s other))|].
    by apply (Repr_wf _ _ _ _ Rt).
Qed.

(** C3 (defect): on a default-constructed, hence empty, list [Print] reads
    slot 0, which holds no element. *)
Theorem Print_empty_reads_slot_0 s this :
  Print this (run (List_default this) s) =
  (Fault (BadRead 0), run (List_default this) s).
Proof.
  apply (Print_empty _ _ (mkList None 0 0 alloc_default)).
  unfold run, List_default, put_obj. repeat split; simpl; try done.
  - apply lookup_insert_eq.
  - lia.
Qed.

End FailureAtomicity.

(** C1 (defect): [Remove(1)] on [[1, 1]] removes both elements and returns 2. *)
Theorem Remove_removes_every_match :
  elements st_11 1%positive = [1; 1]%Z /\
  fst (Remove 1%positive (Obj 1%Z) st_11) = Ret 2 /\
  elements (run (Remove 1%positive (Obj 1%Z)) st_11) 1%positive = [] /\
  fst (Count 1%positive (run (Remove 1%positive (Obj 1%Z)) st_11)) = Ret 0.
Proof. vm_compute. repeat split. Qed.

Lemma add_all_count_and_order_witness :
  exists s',
    add_all 1%positive [10; 20; 30]%Z st_empty = (Ret tt, s') /\
    Count 1%positive s' = (Ret 3, s') /\
    forall i v, [10; 20; 30]%Z !! i = Some v ->
                subscript 1%positive (N.of_nat i) s' = (Ret v, s').
Proof.
  apply (add_all_count_and_order st_empty 1%positive [10; 20; 30]%Z).
  - reflexivity.
  - reflexivity.
  - intros a n. simpl. discriminate.
  - vm_compute. discriminate.
Defined.

Lemma RemoveAt_spec_witness :
  exists n cap,
    Count 1%positive st_10_40 = (Ret n, st_10_40) /\
    Capacity 1%positive st_10_40 = (Ret cap, st_10_40) /\
    (n <= 2 -> RemoveAt 1%positive 2 st_10_40 = (Throw (out_of_range 2), st_10_40)) /\
    (2 < n ->
     exists s',
       RemoveAt 1%positive 2 st_10_40 = (Ret tt, s') /\
       elements s' 1%positive = delete (N.to_nat 2) (elements st_10_40 1%positive) /\
       Count 1%positive s' = (Ret (n - 1), s') /\
       Capacity 1%positive s' = (Ret cap, s') /\
       wf s' 1%positive = true).
Proof. apply (RemoveAt_spec st_10_40 1%positive 2). reflexivity. Defined.

Lemma RemoveIf_spec_witness :
  exists n s',
    Count 1%positive st_12345 = (Ret n, st_12345) /\
    RemoveIf 1%positive is_2_or_4 st_12345 =
      (Ret (N.of_nat (length (List.filter is_2_or_4 (elements st_12345 1%positive)))), s') /\
    elements s' 1%positive =
      List.filter (fun x => negb (is_2_or_4 x)) (elements st_12345 1%positive) /\
    Count 1%positive s' =
      (Ret (n - N.of_nat (length (List.filter is_2_or_4 (elements st_12345 1%positive)))), s') /\
    wf s' 1%positive = true.
Proof. apply (RemoveIf_spec st_12345 1%positive is_2_or_4). reflexivity. Defined.

Lemma move_assign_self_unchanged_witness :
  move_assign 1%positive 1%positive st_12345 = (Ret tt, st_12345).
Proof. apply (move_assign_self_unchanged st_12345 1%positive). reflexivity. Defined.

Lemma move_transfers_contents_witness :
  (exists s', List_move 3%positive 2%positive st_two = (Ret tt, s') /\
              moved st_two s' 3%positive 2%positive) /\
  (exists s', move_assign 1%positive 2%positive st_two = (Ret tt, s') /\
              moved st_two s' 1%positive 2%positive).
Proof.
  apply (move_transfers_contents st_two 3%positive 1%positive 2%positive);
    [discriminate|discriminate|reflexivity|reflexivity|reflexivity].
Defined.

Lemma capacity_changes_keep_elements_witness :
  exists cap cnt,
    Capacity 1%positive st_12345 = (Ret cap, st_12345) /\
    Count 1%positive st_12345 = (Ret cnt, st_12345) /\
    (20 <= cap -> Capacity_set 1%positive 20 st_12345 = (Ret tt, st_12345)) /\
    (cap < 20 -> alloc_succeeds st_12345 1%positive 20 = true ->
     exists s',
       Capacity_set 1%positive 20 st_12345 = (Ret tt, s') /\
       Capacity 1%positive s' = (Ret 20, s') /\ Count 1%positive s' = (Ret cnt, s') /\
       elements s' 1%positive = elements st_12345 1%positive /\ wf s' 1%positive = true) /\
    (cap = cnt -> ShrinkToFit 1%positive st_12345 = (Ret tt, st_12345)) /\
    (cap <> cnt -> alloc_succeeds st_12345 1%positive cnt = true ->
     exists s',
       ShrinkToFit 1%positive st_12345 = (Ret tt, s') /\
       Capacity 1%positive s' = (Ret cnt, s') /\ Count 1%positive s' = (Ret cnt, s') /\
       elements s' 1%positive = elements st_12345 1%positive /\ wf s' 1%positive = true).
Proof. apply (capacity_changes_keep_elements st_12345 1%positive 20). reflexivity. Defined.

(** C2 as stated fails: a copy assignment whose allocation fails throws after
    the destination's elements are gone. *)
Lemma copy_assign_failure_loses_elements :
  wf st_pool 1%positive = true /\
  operands_ok st_pool 1%positive (OpCopyAssign 2%positive) = true /\
  exists s',
    run_op 1%positive (OpCopyAssign 2%positive) st_pool = (Throw bad_alloc, s') /\
    elements st_pool 1%positive = [1; 2]%Z /\
    elements s' 1%positive = [] /\
    elements s' 1%positive <> elements st_pool 1%positive.
Proof.
  split; [reflexivity|]. split; [reflexivity|].
  exists (run (copy_assign 1%positive 2%positive) st_pool).
  split; [|split; [|split]].
  - vm_compute. reflexivity.
  - reflexivity.
  - vm_compute. reflexivity.
  - vm_compute. discriminate.
Qed.

Lemma mutation_succeeds_or_fails_cleanly_witness :
  exists r s',
    run_op 1%positive (OpCopyAssign 2%positive) st_pool = (r, s') /\
    match r with
    | Ret _ => wf s' 1%positive = true
    | Throw _ => after_failure st_pool s' 1%positive (OpCopyAssign 2%positive)
    | Fault _ => False
    end.
Proof.
  apply (mutation_succeeds_or_fails_cleanly st_pool 1%positive (OpCopyAssign 2%positive));
    reflexivity.
Defined.

(** ** The worked examples of the specification, by evaluation *)

Example RemoveIf_2_4_of_12345 :
  elements st_12345 1%positive = [1; 2; 3; 4; 5]%Z /\
  fst (RemoveIf 1%positive is_2_or_4 st_12345) = Ret 2 /\
  elements (run (RemoveIf 1%positive is_2_or_4) st_12345) 1%positive = [1; 3; 5]%Z /\
  fst (Count 1%positive (run (RemoveIf 1%positive is_2_or_4) st_12345)) = Ret 3.
Proof. vm_compute. repeat split. Qed.

Example RemoveAt_2_of_10_40 :
  elements (run (RemoveAt 1%positive 2) st_10_40) 1%positive = [10; 20; 40]%Z /\
  fst (Count 1%positive (run (RemoveAt 1%positive 2) st_10_40)) = Ret 3 /\
  RemoveAt 1%positive 10 st_10_40 = (Throw (out_of_range 10), st_10_40).
Proof. vm_compute. repeat split. Qed.

Example Find_in_10_40 :
  fst (Find 1%positive 30%Z st_10_40) = Ret (Some 2) /\
  fst (Find 1%positive 99%Z st_10_40) = Ret None /\
  fst (Get 1%positive 1 st_10_40) = Ret 20%Z /\
  fst (Get 1%positive 4 st_10_40) = Throw (out_of_range 4).
Proof. vm_compute. repeat split. Qed.

Example Clear_keeps_capacity :
  fst (Capacity 1%positive st_12345) = Ret 8 /\
  fst (Capacity 1%positive (run (Clear 1%positive) st_12345)) = Ret 8 /\
  fst (Count 1%positive (run (Clear 1%positive) st_12345)) = Ret 0.
Proof. vm_compute. repeat split. Qed.

Example Print_12345 :
  fst (Print 1%positive st_12345) =
  Ret ("(1, 2, 3, 4, 5)" +:+ String (Ascii.ascii_of_nat 10) "")%string.
Proof. vm_compute. reflexivity. Qed.

Example copy_assign_two :
  elements (run (copy_assign 1%positive 2%positive) st_two) 1%positive = [7; 8; 9]%Z /\
  elements (run (copy_assign 1%positive 2%positive) st_two) 2%positive = [7; 8; 9]%Z /\
  fst (copy_assign 1%positive 2%positive st_two) = Ret tt.
Proof. vm_compute. repeat split. Qed.

(** ** Further properties of the member functions *)

Section Frames.
Context {T : Type} `{Element T} {A : Type} `{Allocator A}.
Local Abbreviation State := (@State T A).
Local Abbreviation ListObj := (@ListObj A).
Implicit Types (s : State) (o oo : ListObj) (this other : loc) (p q : addr).
Implicit Types (xs ys : list T).

Lemma frame_refl s this o o' : data o' = data o -> frame_of s s this o o'.
Proof. intros E. split; [done|]. by rewrite E. Qed.

Lemma frame_trans s s1 s2 this o o1 o2 :
  frame_of s s1 this o o1 -> frame_of s1 s2 this o1 o2 -> frame_of s s2 this o o2.
Proof.
  intros [F1 G1] [F2 G2]. split.
  - intros l Hl. by rewrite F2, F1.
  - by rewrite G2, G1.
Qed.

Lemma frame_cleared s this o xs :
  Repr s this o xs ->
  frame_of s (cleared s this o) this o (mkList (data o) (capacity o) 0 (dataAllocator o)).
Proof.
  intros R. unfold cleared. split; simpl.
  - intros l Hl. by rewrite lookup_insert_ne.
  - destruct (data o) as [p|]; simpl; [|done]. by rewrite delete_insert_eq.
Qed.

Lemma frame_resized s this o xs n a' :
  Repr s this o xs ->
  frame_of s (resized s this o n a' xs) this o
    (mkList (Some (fresh (dom (heap s)))) n (count o) (deallocate a' (capacity o))).
Proof.
  intros R. unfold resized. split; simpl.
  - intros l Hl. by rewrite lookup_insert_ne.
  - rewrite delete_insert_eq. apply delete_id.
    pose proof (fresh_addr_free s) as Hf.
    destruct (data o) as [p|]; simpl; [|done].
    destruct (decide (p = fresh (dom (heap s)))) as [->|Hne].
    + apply lookup_delete_eq.
    + by rewrite lookup_delete_ne.
Qed.

(** Another list with a block of its own is not affected. *)
Lemma frame_other s s' this other o o' oo ys :
  frame_of s s' this o o' -> this <> other ->
  Repr s other oo ys -> disjoint_blocks o oo ->
  Repr s' other oo ys /\ disjoint_blocks o' oo.
Proof.
  intros [F G] Hne (Hoo & Hno & Hco & Hmo & Hdo) Hsep.
  assert (Hkey : forall po, data oo = Some po ->
            data o' <> Some po /\ heap s' !! po = heap s !! po).
  { intros po Hpo. rewrite Hpo in Hdo.
    assert (E : release (data o) (heap s) !! po = heap s !! po).
    { destruct (data o) as [p|] eqn:Ed; simpl; [|done].
      rewrite lookup_delete_ne; [done|]. intros ->. by apply (Hsep po). }
    rewrite <- G in E. destruct (data o') as [p'|]; simpl in E.
    - destruct (decide (p' = po)) as [->|Hp].
      + rewrite lookup_delete_eq in E. congruence.
      + rewrite lookup_delete_ne in E by done. split; [congruence|done].
    - done. }
  split.
  - repeat split; try done.
    + rewrite F; [done|congruence].
    + destruct (data oo) as [po|] eqn:Edo; [|done].
      destruct (Hkey po eq_refl) as [_ ->]. done.
  - intros p Hp Hq. destruct (Hkey p Hq) as [Hn _]. done.
Qed.

Lemma disjoint_separate s this other o oo :
  objs s !! this = Some o -> objs s !! other = Some oo ->
  disjoint_blocks o oo -> separate s this other = true.
Proof.
  intros Ho Hoo Hsep. unfold separate. rewrite Ho, Hoo.
  destruct (data o) as [p|] eqn:Ed; [|done].
  destruct (data oo) as [po|] eqn:Edo; [|done].
  apply bool_decide_eq_true. intros ->. by apply (Hsep po).
Qed.

Lemma add_tail_framed s this o xs v :
  Repr s this o xs -> count o < capacity o ->
  exists s',
    add_tail this v s = (Ret tt, s') /\
    Repr s' this (mkList (data o) (capacity o) (count o + 1) (dataAllocator o)) (xs ++ [v]) /\
    frame_of s s' this o (mkList (data o) (capacity o) (count o + 1) (dataAllocator o)).
Proof.
  intros (Ho & Hn & Hc & Hm & Hd) Hlt. unfold add_tail.
  pose proof max_size_lt_mod.
  destruct (data o) as [p|] eqn:Ed; [|lia].
  eexists. split; [|split].
  - exec_field. exec_field. exec_field. rewrite Ed.
    apply (construct_at_ok _ p (Some <$> xs) None v
             (replicate (N.to_nat (capacity o) - length xs - 1) None)).
    + simpl. rewrite Hd. f_equal. unfold block_of. f_equal.
      apply replicate_pos. lia.
    + rewrite length_fmap. lia.
  - unfold size_add. rewrite N.mod_small by lia.
    repeat split; simpl; try done.
    + rewrite ?Ed. apply lookup_insert_eq.
    + rewrite length_app. simpl. lia.
    + lia.
    + rewrite lookup_insert_eq. f_equal. unfold block_of.
      rewrite fmap_app, length_app, <- app_assoc. simpl. do 3 f_equal. lia.
  - split; simpl.
    + intros l Hl. by rewrite lookup_insert_ne.
    + by rewrite Ed, delete_insert_eq.
Qed.

(** One [Add]: the object it leaves and its frame. *)
Lemma Add_framed s this o xs v :
  Repr s this o xs ->
  (count o <? capacity o) ||
    match try_allocate (dataAllocator o) (N.max (2 * capacity o) 1) with
    | Some _ => true | None => false end = true ->
  exists s' o',
    Add this (Copy (Obj v)) s = (Ret tt, s') /\ Repr s' this o' (xs ++ [v]) /\
    capacity o' = (if count o <? capacity o then capacity o else N.max (2 * capacity o) 1) /\
    frame_of s s' this o o'.
Proof.
  intros R Hok. pose proof R as (Ho & Hn & Hc & Hm & Hd).
  destruct (N.ltb_spec (count o) (capacity o)) as [Hlt|Hge].
  - destruct (add_tail_framed _ _ _ _ v R Hlt) as (s' & E & R' & F).
    exists s', (mkList (data o) (capacity o) (count o + 1) (dataAllocator o)).
    split; [|done]. rewrite Add_unfold. exec_field. exec_field.
    rewrite decide_False by lia. by erewrite bind_ret by done.
  - simpl in Hok. assert (Heq : count o = capacity o) by lia.
    destruct (try_allocate (dataAllocator o) (N.max (2 * capacity o) 1)) as [a'|] eqn:Ea;
      [|done].
    destruct (grown_capacity _ Hm) as [Eg Hg].
    assert (Hmax : N.max (2 * capacity o) 1 <= max_size).
    { unfold try_allocate in Ea.
      destruct (N.ltb_spec max_size (N.max (2 * capacity o) 1)); [done|lia]. }
    assert (Hcn : count o <= N.max (2 * capacity o) 1) by lia.
    pose proof (Repr_resized _ _ _ _ _ a' R Hcn Hmax) as R1.
    pose proof (frame_resized _ _ _ _ (N.max (2 * capacity o) 1) a' R) as F1.
    destruct (add_tail_framed _ _ _ _ v R1) as (s' & E & R' & F'); [simpl; lia|].
    exists s'. eexists. split; [|split; [exact R'|split; [done|]]].
    + rewrite Add_unfold. exec_field. exec_field.
      rewrite decide_True by done. rewrite Eg.
      erewrite bind_ret; [exact E|].
      rewrite (Capacity_set_grow _ _ _ _ Ho Hg).
      apply (Resize_ok _ _ _ _ _ _ R); [lia|done].
    + eapply frame_trans; [exact F1|exact F'].
Qed.

Lemma RemoveAt_framed s this o xs1 x xs2 :
  Repr s this o (xs1 ++ x :: xs2) ->
  exists s',
    RemoveAt this (N.of_nat (length xs1)) s = (Ret tt, s') /\
    Repr s' this (mkList (data o) (capacity o) (count o - 1) (dataAllocator o)) (xs1 ++ xs2) /\
    frame_of s s' this o (mkList (data o) (capacity o) (count o - 1) (dataAllocator o)).
Proof.
  intros (Ho & Hn & Hc & Hm & Hd). pose proof max_size_lt_mod.
  rewrite length_app in Hn. simpl in Hn.
  destruct (data o) as [p|] eqn:Ed; [|lia].
  set (raw := replicate (N.to_nat (capacity o) - length (xs1 ++ x :: xs2)) (@None T)).
  assert (Hd' : heap s !! p = Some ((Some <$> xs1) ++ Some x :: (Some <$> xs2) ++ raw)).
  { rewrite Hd. unfold block_of. rewrite fmap_app, <- app_assoc. done. }
  eexists. split; [|split].
  - unfold RemoveAt, for_loop. exec_field.
    destruct (N.leb_spec (count o) (N.of_nat (length xs1))); [lia|].
    rewrite (proj2 (N.ltb_ge _ 0)) by lia. cbn [orb].
    exec_field. rewrite Ed.
    replace (N.to_nat (count o - (N.of_nat (length xs1) + 1))) with (length xs2) by lia.
    erewrite bind_ret; cycle 1.
    { apply (shift_left_ok xs2 s p (Some <$> xs1) x raw); [done|].
      rewrite length_fmap. lia. }
    exec_field. exec_field.
    rewrite size_sub_small by lia.
    apply (destroy_at_ok _ p ((Some <$> xs1) ++ (Some <$> xs2)) (shifted_last x xs2) raw).
    + simpl. rewrite lookup_insert_eq. by rewrite <- app_assoc.
    + rewrite length_app, !length_fmap. lia.
  - repeat split; simpl; try done.
    + rewrite ?Ed. apply lookup_insert_eq.
    + pose proof (length_app xs1 xs2). lia.
    + lia.
    + rewrite insert_insert_eq, lookup_insert_eq. f_equal. unfold block_of.
      rewrite fmap_app, <- !app_assoc. do 2 f_equal. subst raw.
      rewrite !length_app. simpl.
      rewrite (replicate_pos _ (N.to_nat (capacity o) - (length xs1 + length xs2))) by lia.
      do 2 f_equal. lia.
  - split; simpl.
    + intros l Hl. by rewrite lookup_insert_ne.
    + rewrite Ed. simpl. by rewrite !delete_insert_eq.
Qed.

Lemma RemoveIf_none s this o xs pred :
  Repr s this o xs -> List.filter pred xs = [] ->
  RemoveIf this pred s = (Ret 0, s).
Proof.
  intros R Hf. unfold RemoveIf.
  by rewrite (bind_ret _ _ _ _ _ (FindIf_none _ _ _ _ _ R Hf)).
Qed.

Lemma RemoveIf_framed s this o xs pred :
  Repr s this o xs ->
  exists s',
    RemoveIf this pred s = (Ret (N.of_nat (length (List.filter pred xs))), s') /\
    Repr s' this
      (mkList (data o) (capacity o) (N.of_nat (length (keep pred xs))) (dataAllocator o))
      (keep pred xs) /\
    frame_of s s' this o
      (mkList (data o) (capacity o) (N.of_nat (length (keep pred xs))) (dataAllocator o)).
Proof.
  intros R. pose proof R as (Ho & Hn & Hc & Hm & Hd). pose proof max_size_lt_mod as Hmod.
  destruct (first_match_split pred xs) as [Hf|(xs1 & x & xs2 & -> & Hf & Hx)].
  - exists s. rewrite (RemoveIf_none _ _ _ _ _ R Hf).
    rewrite Hf, (keep_no_match _ _ Hf), <- Hn. split; [done|].
    split; [by destruct o|]. by apply frame_refl.
  - rewrite length_app in Hn. simpl in Hn.
    destruct (data o) as [p|] eqn:Ed; [|lia].
    set (raw := replicate (N.to_nat (capacity o) - length (xs1 ++ x :: xs2)) (@None T)).
    assert (Hd' : heap s !! p =
                  Some ((Some <$> xs1) ++ (Some <$> [x]) ++ (Some <$> xs2) ++ raw)).
    { rewrite Hd. unfold block_of. rewrite fmap_app, <- app_assoc. done. }
    destruct (compact_ok pred xs2 s p (Some <$> xs1) [x] raw
                (N.of_nat (length xs1) + 1) (N.of_nat (length xs1)) Hd')
      as (g & Hg & Hrun); [done|rewrite length_fmap; lia|rewrite length_fmap; simpl; lia|].
    fold (keep pred xs2) in Hrun.
    assert (Ekeep : keep pred (xs1 ++ x :: xs2) = xs1 ++ keep pred xs2).
    { unfold keep. rewrite List.filter_app. simpl. rewrite Hx. simpl.
      f_equal. by apply keep_no_match. }
    assert (Efilt : List.filter pred (xs1 ++ x :: xs2) = x :: List.filter pred xs2).
    { rewrite List.filter_app, Hf. simpl. by rewrite Hx. }
    pose proof (filter_keep_length pred xs2) as Hpart. simpl in Hg.
    rewrite Ekeep, Efilt.
    eexists. split; [|split].
    + unfold RemoveIf, for_loop.
      rewrite (bind_ret _ _ _ _ _ (FindIf_some _ _ _ _ _ _ _ R Hf Hx)).
      exec_field. rewrite Ed. exec_field.
      replace (N.to_nat (count o - (N.of_nat (length xs1) + 1))) with (length xs2) by lia.
      rewrite (bind_ret _ _ _ _ _ Hrun).
      replace (N.to_nat (count o - (N.of_nat (length xs1) + N.of_nat (length (keep pred xs2)))))
        with (length g) by lia.
      erewrite bind_ret; cycle 1.
      { apply (destroy_range_ok g _ p ((Some <$> xs1) ++ (Some <$> keep pred xs2)) raw).
        - simpl. rewrite lookup_insert_eq. by rewrite <- app_assoc.
        - rewrite length_app, !length_fmap. lia. }
      exec_field.
      rewrite (size_sub_small (count o)
                 (N.of_nat (length xs1) + N.of_nat (length (keep pred xs2)))) by lia.
      rewrite size_sub_small by lia.
      erewrite bind_ret by (apply wr_count_ok; obj_lookup).
      unfold ret. simpl. f_equal. f_equal. lia.
    + repeat split; simpl; rewrite ?Ed; try done.
      * replace (count o - (count o - (N.of_nat (length xs1) + N.of_nat (length (keep pred xs2)))))
          with (N.of_nat (length (xs1 ++ keep pred xs2))) by (rewrite length_app; lia).
        apply lookup_insert_eq.
      * rewrite length_app. lia.
      * rewrite insert_insert_eq, lookup_insert_eq. f_equal. unfold block_of.
        rewrite fmap_app, <- !app_assoc. do 2 f_equal. subst raw.
        rewrite <- replicate_add. f_equal. rewrite !length_app. simpl. lia.
    + split; simpl.
      * intros l Hl. by rewrite lookup_insert_ne.
      * rewrite Ed. simpl. by rewrite !delete_insert_eq.
Qed.

End Frames.

Section CopyDetail.
Context {T : Type} `{Element T} {A : Type} `{Allocator A}.
Local Abbreviation State := (@State T A).
Local Abbreviation ListObj := (@ListObj A).
Implicit Types (s : State) (o oo : ListObj) (this other : loc) (p q : addr).
Implicit Types (xs ys : list T).

(** A successful copy assignment between distinct lists, with the capacity
    it ends with and the separation of the two blocks. *)
Lemma copy_assign_detailed s this other o oo xs ys :
  this <> other -> Repr s this o xs -> Repr s other oo ys ->
  disjoint_blocks o oo ->
  (capacity oo <=? capacity o) ||
    match try_allocate (dataAllocator o) (capacity oo) with
    | Some _ => true | None => false end = true ->
  exists s' o',
    copy_assign this other s = (Ret tt, s') /\
    Repr s' this o' ys /\ Repr s' other oo ys /\
    capacity o' = N.max (capacity o) (capacity oo) /\
    disjoint_blocks o' oo.
Proof.
  intros Hne R Ro Hsep Hok. rewrite (copy_assign_unfold _ _ _ Hne).
  rewrite (bind_ret _ _ _ _ _ (Clear_ok _ _ _ _ R)).
  pose proof (Repr_cleared _ _ _ _ R) as R1.
  pose proof (frame_cleared _ _ _ _ R) as F1.
  set (o1 := mkList (data o) (capacity o) 0 (dataAllocator o)) in *.
  destruct (frame_other _ _ _ _ _ _ _ _ F1 Hne Ro Hsep) as [Ro1 Hsep1].
  pose proof Ro1 as (Hoo & Hno & Hco & Hmo & Hdo).
  pose proof R1 as (Ho1 & _).
  rewrite (bind_ret _ _ _ _ _ (rd_capacity_ok _ _ _ Hoo)).
  destruct (N.leb_spec (capacity oo) (capacity o)) as [Hle|Hgt].
  - rewrite (bind_ret _ _ _ _ _ (Capacity_set_noop _ _ o1 _ Ho1 Hle)).
    destruct (copy_elements_ok _ _ _ o1 oo ys Hne R1 Ro1 Hsep1 Hle) as (s' & E & Rt & Rot).
    exists s', (mkList (data o1) (capacity o1) (count oo) (dataAllocator o1)).
    split; [done|]. split; [done|]. split; [done|]. split; [simpl; lia|].
    intros p Hp. by apply Hsep1.
  - simpl in Hok.
    destruct (try_allocate (dataAllocator o) (capacity oo)) as [a'|] eqn:Ea; [|done].
    assert (Eg : Capacity_set this (capacity oo) (cleared s this o) =
                 Resize this (capacity oo) (cleared s this o)).
    { by apply (Capacity_set_grow _ _ o1). }
    assert (H0n : count o1 <= capacity oo) by (simpl; lia).
    pose proof (Resize_ok _ _ o1 [] _ a' R1 H0n Ea) as Er.
    pose proof (Repr_resized _ _ o1 [] _ a' R1 H0n Hmo) as R2.
    pose proof (frame_resized _ _ o1 [] (capacity oo) a' R1) as F2.
    set (s2 := resized _ _ _ _ _ _) in *.
    set (o2 := mkList (Some _) _ _ _) in *.
    destruct (frame_other _ _ _ _ _ _ _ _ F2 Hne Ro1 Hsep1) as [Ro2 Hsep2].
    destruct (copy_elements_ok s2 _ _ o2 oo ys Hne R2 Ro2 Hsep2 ltac:(simpl; lia))
      as (s' & E & Rt & Rot).
    exists s', (mkList (data o2) (capacity o2) (count oo) (dataAllocator o2)).
    split; [erewrite bind_ret; [exact E|]; by rewrite Eg|].
    split; [done|]. split; [done|]. split; [simpl; lia|].
    intros p Hp. by apply Hsep2.
Qed.

End CopyDetail.

Section Accessors.
Context {T : Type} `{Element T} {A : Type} `{Allocator A}.
Local Abbreviation State := (@State T A).
Local Abbreviation ListObj := (@ListObj A).
Implicit Types (s : State) (o oo : ListObj) (this other : loc) (p q : addr).
Implicit Types (xs ys : list T).

Lemma filter_nil_none (pred : T -> bool) xs :
  List.filter pred xs = [] -> forall x, x ∈ xs -> pred x = false.
Proof.
  induction xs as [|y xs IH]; simpl; intros Hf x Hx.
  - by apply elem_of_nil in Hx.
  - destruct (pred y) eqn:Hy; [done|].
    apply elem_of_cons in Hx as [->|Hx]; [done|]. by apply IH.
Qed.

Lemma subscript_out_of_range s this o xs i :
  Repr s this o xs -> count o <= i ->
  subscript this i s = (Fault (BadRead i), s).
Proof.
  intros (Ho & Hn & Hc & Hm & Hd) Hle. unfold subscript. exec_field.
  unfold read_at, slot. destruct (data o) as [p|]; [|done].
  rewrite Hd. unfold block_of.
  rewrite lookup_app_r by (rewrite length_fmap; lia).
  destruct (replicate _ _ !! _) as [y|] eqn:Ey; [|done].
  apply lookup_replicate in Ey as [-> _]. done.
Qed.

Lemma Get_throw s this o i :
  objs s !! this = Some o -> count o <= i ->
  Get this i s = (Throw (out_of_range i), s).
Proof.
  intros Ho Hle. unfold Get. exec_field.
  by destruct (N.leb_spec (count o) i); [|lia].
Qed.

Lemma Get_subscript s this o i :
  objs s !! this = Some o -> i < count o ->
  Get this i s = subscript this i s.
Proof.
  intros Ho Hlt. unfold Get, subscript. exec_field.
  destruct (N.leb_spec (count o) i); [lia|].
  by rewrite (proj2 (N.ltb_ge i 0)) by lia.
Qed.

Lemma Find_FindIf s this o val :
  objs s !! this = Some o ->
  Find this val s = FindIf this (fun e => elem_eqb e val) s.
Proof.
  intros Ho. unfold Find, FindIf. exec_field. exec_field.
  symmetry. exec_field. by exec_field.
Qed.

Lemma FindIf_result s this o xs pred :
  Repr s this o xs ->
  exists r,
    FindIf this pred s = (Ret r, s) /\
    match r with
    | Some i =>
        exists x, xs !! N.to_nat i = Some x /\ pred x = true /\
          forall j y, (j < N.to_nat i)%nat -> xs !! j = Some y -> pred y = false
    | None => forall x, x ∈ xs -> pred x = false
    end.
Proof.
  intros R. destruct (first_match_split pred xs) as [Hf|(xs1 & x & xs2 & -> & Hf & Hx)].
  - exists None. split; [by apply (FindIf_none _ _ o xs)|]. by apply filter_nil_none.
  - exists (Some (N.of_nat (length xs1))).
    split; [by apply (FindIf_some _ _ o xs1 x xs2)|].
    exists x. rewrite Nat2N.id. split; [by apply list_lookup_middle|]. split; [done|].
    intros j y Hj Hy. rewrite lookup_app_l in Hy by done.
    apply (filter_nil_none pred xs1 Hf). by eapply list_elem_of_lookup_2.
Qed.

Lemma string_append_assoc (a b c : string) :
  ((a +:+ b) +:+ c = a +:+ b +:+ c)%string.
Proof.
  induction a as [|ch a IH]; [done|].
  change (String ch ((a +:+ b) +:+ c) = String ch (a +:+ b +:+ c)). by rewrite IH.
Qed.

Lemma render_concat xs x :
  (render_items xs +:+ show x)%string = String.concat ", " (map show (xs ++ [x])).
Proof.
  induction xs as [|y xs IH]; simpl; [done|].
  rewrite !string_append_assoc. simpl. rewrite IH.
  by destruct (map show (xs ++ [x])) eqn:E; [destruct xs; discriminate|].
Qed.

(** X1: [Clear] destroys every element and keeps the capacity. *)
Theorem Clear_keeps_capacity_only s this :
  wf s this = true ->
  exists s',
    Clear this s = (Ret tt, s') /\
    elements s' this = [] /\
    Count this s' = (Ret 0, s') /\
    fst (Capacity this s') = fst (Capacity this s) /\
    wf s' this = true.
Proof.
  intros Hwf. destruct (wf_Repr _ _ Hwf) as (o & R).
  pose proof (Repr_cleared _ _ _ _ R) as Rc.
  exists (cleared s this o). split; [by apply (Clear_ok _ _ _ (elements s this))|].
  rewrite (Repr_elements _ _ _ _ Rc), (Count_Repr _ _ _ _ Rc), (Repr_wf _ _ _ _ Rc).
  by rewrite (Capacity_Repr _ _ _ _ Rc), (Capacity_Repr _ _ _ _ R).
Qed.

(** X2: [Get] throws [out_of_range] exactly for [index >= count] and leaves
    the store alone; below [count] it returns what [operator[]] returns, the
    element at that offset.  At [index >= count] the unchecked [operator[]]
    reads a slot that holds no element. *)
Theorem Get_checked_access s this index :
  wf s this = true ->
  exists n,
    Count this s = (Ret n, s) /\
    (n <= index ->
     Get this index s = (Throw (out_of_range index), s) /\
     subscript this index s = (Fault (BadRead index), s)) /\
    (index < n ->
     exists x,
       elements s this !! N.to_nat index = Some x /\
       Get this index s = (Ret x, s) /\
       subscript this index s = (Ret x, s)).
Proof.
  intros Hwf. destruct (wf_Repr _ _ Hwf) as (o & R).
  set (xs := elements s this) in *. pose proof R as (Ho & Hn & _).
  exists (N.of_nat (length xs)). split; [by apply (Count_Repr _ _ o)|]. split.
  - intros Hle. split.
    + apply (Get_throw _ _ o); [done|lia].
    + apply (subscript_out_of_range _ _ o xs); [done|lia].
  - intros Hlt. destruct (lookup_lt_is_Some_2 xs (N.to_nat index)) as [x Hx]; [lia|].
    exists x. split; [done|].
    rewrite (Get_subscript _ _ o) by (done || lia).
    split; by apply (subscript_ok _ _ o xs).
Qed.

(** X3: [FindIf] leaves the store alone and returns the offset of the first
    element satisfying the predicate, or [nullptr] when no element does. *)
Theorem FindIf_first_match s this (pred : T -> bool) :
  wf s this = true ->
  exists r,
    FindIf this pred s = (Ret r, s) /\
    match r with
    | Some i =>
        exists x, elements s this !! N.to_nat i = Some x /\ pred x = true /\
          forall j y, (j < N.to_nat i)%nat -> elements s this !! j = Some y -> pred y = false
    | None => forall x, x ∈ elements s this -> pred x = false
    end.
Proof.
  intros Hwf. destruct (wf_Repr _ _ Hwf) as (o & R). by apply (FindIf_result _ _ o).
Qed.

(** X4: [Find] leaves the store alone and returns the offset of the first
    element equal to the value ([operator==]), or [nullptr] when none is. *)
Theorem Find_first_equal s this (val : T) :
  wf s this = true ->
  exists r,
    Find this val s = (Ret r, s) /\
    match r with
    | Some i =>
        exists x, elements s this !! N.to_nat i = Some x /\ elem_eqb x val = true /\
          forall j y, (j < N.to_nat i)%nat -> elements s this !! j = Some y ->
                      elem_eqb y val = false
    | None => forall x, x ∈ elements s this -> elem_eqb x val = false
    end.
Proof.
  intros Hwf. destruct (wf_Repr _ _ Hwf) as (o & R).
  rewrite (Find_FindIf _ _ o) by (by destruct R).
  by apply (FindIf_result _ _ o _ (fun e => elem_eqb e val)).
Qed.

(** X5: on a non-empty list [Print] leaves the store alone and writes the
    elements in order, separated by ", ", between "(" and ")" and a newline. *)
Theorem Print_nonempty s this :
  wf s this = true -> elements s this <> [] ->
  Print this s =
  (Ret ("(" +:+ String.concat ", " (map show (elements s this)) +:+ ")"
          +:+ String (Ascii.ascii_of_nat 10) "")%string, s).
Proof.
  intros Hwf Hne. destruct (wf_Repr _ _ Hwf) as (o & R).
  destruct (elements s this) as [|y l] eqn:E using rev_ind; [done|]. clear IHl.
  rewrite (Print_ok _ _ o l y R). unfold render. do 2 f_equal.
  rewrite <- render_concat. by rewrite !string_append_assoc.
Qed.

End Accessors.

Section Ownership.
Context {T : Type} `{Element T} {A : Type} `{Allocator A}.
Local Abbreviation State := (@State T A).
Local Abbreviation ListObj := (@ListObj A).
Implicit Types (s : State) (o oo : ListObj) (this other : loc) (p q : addr).
Implicit Types (xs ys : list T).

Lemma elements_ext s s' l l' :
  objs s' !! l' = objs s !! l -> heap s' = heap s -> elements s' l' = elements s l.
Proof. intros Eo Eh. unfold elements. by rewrite Eo, Eh. Qed.

Lemma wf_ext s s' l l' :
  objs s' !! l' = objs s !! l -> heap s' = heap s -> wf s' l' = wf s l.
Proof. intros Eo Eh. unfold wf. by rewrite Eo, Eh. Qed.

Lemma swap_self s this o :
  objs s !! this = Some o -> swap this this s = (Ret tt, s).
Proof.
  intros Ho. unfold swap. do 16 exec_field. destruct s as [h ob]. simpl in *.
  f_equal. f_equal. rewrite !insert_insert_eq. destruct o. by apply insert_id.
Qed.

Lemma rd_data_Repr s this o xs :
  Repr s this o xs -> rd_data this s = (Ret (data o), s).
Proof. intros (Ho & _). by apply rd_data_ok. Qed.

(** X6: copy assignment from a different list, when the capacity suffices
    or the allocation is granted: the destination holds the source's elements
    in order, the source is unchanged, the capacity of the destination is the
    larger of the two capacities, and the two lists have separate blocks. *)
Theorem copy_assign_copies s this other ct co :
  this <> other ->
  wf s this = true -> wf s other = true -> separate s this other = true ->
  Capacity this s = (Ret ct, s) -> Capacity other s = (Ret co, s) ->
  (co <=? ct) || alloc_succeeds s this co = true ->
  exists s',
    copy_assign this other s = (Ret tt, s') /\
    elements s' this = elements s other /\
    elements s' other = elements s other /\
    objs s' !! other = objs s !! other /\
    fst (Count this s') = fst (Count other s) /\
    Capacity this s' = (Ret (N.max ct co), s') /\
    wf s' this = true /\ wf s' other = true /\
    separate s' this other = true.
Proof.
  intros Hne Hwt Hwo Hsep Hct Hco Hok.
  destruct (wf_Repr _ _ Hwt) as (o & R). destruct (wf_Repr _ _ Hwo) as (oo & Ro).
  rewrite (Capacity_Repr _ _ _ _ R) in Hct. rewrite (Capacity_Repr _ _ _ _ Ro) in Hco.
  injection Hct as <-. injection Hco as <-.
  assert (Hd : disjoint_blocks o oo).
  { apply (separate_disjoint s this other); [done|by destruct R|by destruct Ro]. }
  unfold alloc_succeeds in Hok. rewrite (proj1 R) in Hok.
  destruct (copy_assign_detailed _ _ _ _ _ _ _ Hne R Ro Hd Hok)
    as (s' & o' & E & Rt & Rot & Hcap & Hd').
  exists s'. split; [done|].
  rewrite (Repr_elements _ _ _ _ Rt), (Repr_elements _ _ _ _ Rot).
  rewrite (Count_Repr _ _ _ _ Rt), (Count_Repr _ _ _ _ Ro).
  rewrite (Capacity_Repr _ _ _ _ Rt), Hcap.
  rewrite (Repr_wf _ _ _ _ Rt), (Repr_wf _ _ _ _ Rot).
  rewrite (proj1 Rot), (proj1 Ro).
  rewrite (disjoint_separate _ _ _ o' oo (proj1 Rt) (proj1 Rot) Hd').
  repeat split.
Qed.

(** X7: [swap] exchanges the two lists (elements, count, capacity, storage
    and allocator) without touching any block, and swapping again gives the
    store back; it may be called with the same list twice. *)
Theorem swap_exchanges s first second :
  wf s first = true -> wf s second = true ->
  exists s',
    swap first second s = (Ret tt, s') /\
    heap s' = heap s /\
    objs s' !! first = objs s !! second /\
    objs s' !! second = objs s !! first /\
    elements s' first = elements s second /\
    elements s' second = elements s first /\
    wf s' first = true /\ wf s' second = true /\
    swap first second s' = (Ret tt, s).
Proof.
  intros Hw1 Hw2.
  destruct (wf_Repr _ _ Hw1) as (o1 & (H1 & _)).
  destruct (wf_Repr _ _ Hw2) as (o2 & (H2 & _)).
  destruct (decide (first = second)) as [<-|Hne].
  { exists s. rewrite (swap_self _ _ o1 H1). by repeat split. }
  set (s' := mkState (heap s) (<[second := o1]> (<[first := o2]> (objs s)))).
  assert (E1 : objs s' !! first = objs s !! second).
  { subst s'. simpl. rewrite lookup_insert_ne by done. by rewrite lookup_insert_eq. }
  assert (E2 : objs s' !! second = objs s !! first).
  { subst s'. simpl. by rewrite lookup_insert_eq. }
  exists s'. split; [by apply swap_ok|]. split; [done|]. split; [done|]. split; [done|].
  rewrite (elements_ext s s' second first E1 eq_refl).
  rewrite (elements_ext s s' first second E2 eq_refl).
  rewrite (wf_ext s s' second first E1 eq_refl), (wf_ext s s' first second E2 eq_refl).
  repeat split; try done.
  rewrite (swap_ok s' first second o2 o1 Hne); [|by rewrite E1|by rewrite E2].
  subst s'. destruct s as [h ob]. simpl in *. f_equal. f_equal.
  apply map_eq. intros k. rewrite !lookup_insert.
  repeat case_decide; subst; congruence.
Qed.

(** X8: the destructor ends the list and frees exactly its own block: the
    object is gone, its block is no longer allocated, every other block and
    object is as before, so another list with its own block keeps its
    invariant and its elements.  With null storage the heap is unchanged. *)
Theorem destructor_releases s this :
  wf s this = true ->
  exists s',
    List_destroy this s = (Ret tt, s') /\
    objs s' !! this = None /\
    (forall l, l <> this -> objs s' !! l = objs s !! l) /\
    (forall p, rd_data this s = (Ret (Some p), s) ->
       heap s' !! p = None /\ forall q, q <> p -> heap s' !! q = heap s !! q) /\
    (rd_data this s = (Ret None, s) -> heap s' = heap s) /\
    (forall l, l <> this -> wf s l = true -> separate s this l = true ->
       wf s' l = true /\ elements s' l = elements s l).
Proof.
  intros Hwf. destruct (wf_Repr _ _ Hwf) as (o & R).
  set (s' := mkState (release (data o) (heap s)) (delete this (objs s))).
  exists s'. split; [by apply (List_destroy_ok _ _ _ (elements s this))|].
  rewrite (rd_data_Repr _ _ _ _ R).
  split; [apply lookup_delete_eq|].
  assert (Ho : forall l, l <> this -> objs s' !! l = objs s !! l).
  { intros l Hl. subst s'. simpl. by rewrite lookup_delete_ne. }
  split; [done|]. split; [|split].
  - intros p Hp. injection Hp as Hp. subst s'. simpl. rewrite Hp. simpl.
    split; [apply lookup_delete_eq|]. intros q Hq. by rewrite lookup_delete_ne.
  - intros Hp. injection Hp as Hp. subst s'. simpl. by rewrite Hp.
  - intros l Hl Hwl Hsep. destruct (wf_Repr _ _ Hwl) as (ol & Rl).
    assert (Hd : disjoint_blocks o ol).
    { apply (separate_disjoint s this l); [done|by destruct R|by destruct Rl]. }
    assert (F : frame_of s s' this o (moved_out o)).
    { split; [done|]. done. }
    destruct (frame_other _ _ _ _ _ _ _ _ F (not_eq_sym Hl) Rl Hd) as [Rl' _].
    by rewrite (Repr_wf _ _ _ _ Rl'), (Repr_elements _ _ _ _ Rl').
Qed.

(** X9: one [Add] of a value that is an object of its own (no reference
    into the list), when the list has room or its growth is granted: the
    value is appended after the present elements, [Count()] rises by 1, and
    the capacity is unchanged if there was room and [max(2 * capacity, 1)]
    if the list was full. *)
Theorem Add_appends s this (v : T) cap cnt :
  wf s this = true ->
  Capacity this s = (Ret cap, s) -> Count this s = (Ret cnt, s) ->
  (cnt <? cap) || alloc_succeeds s this (N.max (2 * cap) 1) = true ->
  exists s',
    Add this (Copy (Obj v)) s = (Ret tt, s') /\
    elements s' this = elements s this ++ [v] /\
    Count this s' = (Ret (cnt + 1), s') /\
    Capacity this s' = (Ret (if cnt <? cap then cap else N.max (2 * cap) 1), s') /\
    wf s' this = true.
Proof.
  intros Hwf Hcap Hcnt Hok. destruct (wf_Repr _ _ Hwf) as (o & R).
  set (xs := elements s this) in *. pose proof R as (Ho & Hn & _).
  rewrite (Capacity_Repr _ _ _ _ R) in Hcap. rewrite (Count_Repr _ _ _ _ R), <- Hn in Hcnt.
  injection Hcap as <-. injection Hcnt as <-.
  unfold alloc_succeeds in Hok. rewrite Ho in Hok.
  destruct (Add_framed _ _ _ _ v R Hok) as (s' & o' & E & R' & Hc' & _).
  exists s'. split; [done|].
  rewrite (Repr_elements _ _ _ _ R'), (Count_Repr _ _ _ _ R'), (Capacity_Repr _ _ _ _ R').
  rewrite (Repr_wf _ _ _ _ R'), Hc'. repeat split.
  do 2 f_equal. rewrite length_app. simpl. lia.
Qed.

(** X16: move assignment from a different list transfers the source's block
    itself (no element is copied), frees the destination's former block, and
    leaves every other block and every third list as it was. *)
Theorem move_assign_transfers_block s this other :
  this <> other ->
  wf s this = true -> wf s other = true -> separate s this other = true ->
  exists s',
    move_assign this other s = (Ret tt, s') /\
    fst (rd_data this s') = fst (rd_data other s) /\
    (forall p, rd_data this s = (Ret (Some p), s) ->
       heap s' !! p = None /\ forall q, q <> p -> heap s' !! q = heap s !! q) /\
    (rd_data this s = (Ret None, s) -> heap s' = heap s) /\
    (forall l, l <> this -> l <> other -> objs s' !! l = objs s !! l).
Proof.
  intros Hne Hwt Hwo Hsep.
  destruct (wf_Repr _ _ Hwt) as (o & R). destruct (wf_Repr _ _ Hwo) as (oo & Ro).
  assert (Hd : disjoint_blocks o oo).
  { apply (separate_disjoint s this other); [done|by destruct R|by destruct Ro]. }
  destruct (Repr_move_assigned _ _ _ _ _ _ _ Hne R Ro Hd) as [Rt Re].
  exists (move_assigned s this other o oo).
  split; [by apply (move_assign_ok _ _ _ _ _ (elements s this) (elements s other))|].
  rewrite (rd_data_Repr _ _ _ _ Rt), (rd_data_Repr _ _ _ _ Ro), (rd_data_Repr _ _ _ _ R).
  split; [done|]. unfold move_assigned. simpl. split; [|split].
  - intros p Hp. injection Hp as ->. simpl.
    split; [apply lookup_delete_eq|]. intros q Hq. by rewrite lookup_delete_ne.
  - intros Hp. injection Hp as ->. done.
  - intros l Hl Hl'. by rewrite !lookup_insert_ne.
Qed.

End Ownership.

Section Composition.
Context {T : Type} `{Element T} {A : Type} `{Allocator A}.
Local Abbreviation State := (@State T A).
Local Abbreviation ListObj := (@ListObj A).
Implicit Types (s : State) (o oo : ListObj) (this other : loc) (p q : addr).
Implicit Types (xs ys : list T).

Lemma filter_keep_nil (pred : T -> bool) xs : List.filter pred (keep pred xs) = [].
Proof.
  unfold keep. induction xs as [|x xs IH]; simpl; [done|].
  destruct (pred x) eqn:Hx; simpl; [done|]. by rewrite Hx.
Qed.

Lemma infallible_grants (a : A) n :
  (forall (a : A) n, allocate a n <> None) -> n <= @max_size T _ ->
  match try_allocate a n with Some _ => true | None => false end = true.
Proof.
  intros Hinf Hn. unfold try_allocate.
  destruct (N.ltb_spec max_size n); [lia|].
  destruct (allocate a n) eqn:E; [done|]. by apply Hinf in E.
Qed.

Lemma add_all_framed vs : forall s this o xs,
  (forall (a : A) n, allocate a n <> None) ->
  Repr s this o xs ->
  2 * N.of_nat (length xs + length vs) <= max_size ->
  exists s' o',
    add_all this vs s = (Ret tt, s') /\ Repr s' this o' (xs ++ vs) /\
    frame_of s s' this o o' /\ (growth_ok o -> growth_ok o').
Proof.
  induction vs as [|v vs IH]; intros s this o xs Hinf R Hb; simpl.
  - exists s, o. rewrite app_nil_r. split; [done|]. split; [done|].
    split; [by apply frame_refl|done].
  - pose proof R as (Ho & Hn & Hc & Hm & Hd).
    assert (Hok : (count o <? capacity o) ||
              match try_allocate (dataAllocator o) (N.max (2 * capacity o) 1) with
              | Some _ => true | None => false end = true).
    { destruct (N.ltb_spec (count o) (capacity o)); [done|]. simpl.
      apply infallible_grants; [done|]. simpl in Hb. lia. }
    destruct (Add_framed _ _ _ _ v R Hok) as (s1 & o1 & E1 & R1 & Hc1 & F1).
    destruct (IH s1 this o1 (xs ++ [v]) Hinf R1) as (s' & o' & E & R' & F & G).
    { rewrite length_app. simpl in *. lia. }
    exists s', o'. rewrite (bind_ret _ _ _ _ _ E1). split; [done|].
    split; [by rewrite <- app_assoc in R'|].
    split; [by eapply frame_trans|].
    intros G0. apply G. pose proof R1 as (_ & Hn1 & _).
    rewrite length_app in Hn1. simpl in Hn1. unfold growth_ok in *.
    destruct (N.ltb_spec (count o) (capacity o)); lia.
Qed.

(** X10: a list whose capacity is 0 and that is then only added to has a
    capacity of at least its count and below twice its count. *)
Theorem Add_growth_is_bounded s this (vs : list T) :
  wf s this = true -> Capacity this s = (Ret 0, s) ->
  (forall (a : A) n, allocate a n <> None) ->
  2 * N.of_nat (length vs) <= @max_size T _ ->
  vs <> [] ->
  exists s' cap,
    add_all this vs s = (Ret tt, s') /\
    Count this s' = (Ret (N.of_nat (length vs)), s') /\
    Capacity this s' = (Ret cap, s') /\
    N.of_nat (length vs) <= cap /\ cap < 2 * N.of_nat (length vs).
Proof.
  intros Hwf Hcap Hinf Hb Hne. destruct (wf_Repr _ _ Hwf) as (o & R).
  rewrite (Capacity_Repr _ _ _ _ R) in Hcap. injection Hcap as Hcap.
  pose proof R as (Ho & Hn & Hc & _).
  assert (Hxs : elements s this = []).
  { destruct (elements s this); [done|]. simpl in Hn. lia. }
  rewrite Hxs in R.
  destruct (add_all_framed vs s this o [] Hinf R Hb) as (s' & o' & E & R' & _ & G).
  simpl in R'. exists s', (capacity o'). split; [done|].
  split; [by apply (Count_Repr _ _ o')|]. split; [by apply (Capacity_Repr _ _ _ vs)|].
  pose proof R' as (_ & Hn' & _).
  assert (G0 : growth_ok o) by (left; simpl in Hn; lia).
  destruct (G G0) as [[Hz _]|Hg]; [|lia]. destruct vs; [done|simpl in Hn'; lia].
Qed.

(** X15: constructing a list at an unused location, adding any values and
    destroying it gives back the store it started from: every block the list
    allocated has been freed and nothing else was touched. *)
Theorem build_and_destroy_restores s this (vs : list T) :
  objs s !! this = None ->
  (forall (a : A) n, allocate a n <> None) ->
  2 * N.of_nat (length vs) <= @max_size T _ ->
  build_and_destroy this vs s = (Ret tt, s).
Proof.
  intros Hfree Hinf Hb. unfold build_and_destroy, List_default.
  unfold bind at 1. unfold put_obj at 1.
  set (o0 := mkList None 0 0 alloc_default).
  set (s0 := mkState (heap s) (<[this := o0]> (objs s))).
  assert (R0 : Repr s0 this o0 []).
  { repeat split; simpl; try done; [apply lookup_insert_eq|lia]. }
  destruct (add_all_framed vs s0 this o0 [] Hinf R0 Hb) as (s1 & o1 & E & R1 & [F G] & _).
  rewrite (bind_ret _ _ _ _ _ E), (List_destroy_ok _ _ _ _ R1), G. simpl.
  destruct s as [h ob]. simpl in *. f_equal. f_equal.
  apply map_eq. intros k. destruct (decide (k = this)) as [->|Hk].
  - by rewrite lookup_delete_eq.
  - rewrite lookup_delete_ne by done. rewrite F by done. by rewrite lookup_insert_ne.
Qed.

(** X12: after [RemoveIf] no element satisfies the predicate any more: a
    second call with the same predicate removes nothing, returns 0 and leaves
    the store as it is. *)
Theorem RemoveIf_twice s this (pred : T -> bool) :
  wf s this = true ->
  exists k s',
    RemoveIf this pred s = (Ret k, s') /\
    (forall x, x ∈ elements s' this -> pred x = false) /\
    RemoveIf this pred s' = (Ret 0, s').
Proof.
  intros Hwf. destruct (wf_Repr _ _ Hwf) as (o & R).
  destruct (RemoveIf_ok _ _ _ _ pred R) as (s' & E & R').
  exists (N.of_nat (length (List.filter pred (elements s this)))), s'.
  split; [done|]. rewrite (Repr_elements _ _ _ _ R'). split.
  - apply filter_nil_none, filter_keep_nil.
  - apply (RemoveIf_none _ _ _ _ _ R'), filter_keep_nil.
Qed.

(** X13: after [Add(v)] with [v] an object of its own (no reference into
    the list) the checked [Get] at the former count returns [v], and
    [RemoveAt] at that index gives back the former elements and count. *)
Theorem Add_then_RemoveAt s this (v : T) cap cnt :
  wf s this = true ->
  Capacity this s = (Ret cap, s) -> Count this s = (Ret cnt, s) ->
  (cnt <? cap) || alloc_succeeds s this (N.max (2 * cap) 1) = true ->
  exists s1 s2,
    Add this (Copy (Obj v)) s = (Ret tt, s1) /\
    Get this cnt s1 = (Ret v, s1) /\
    RemoveAt this cnt s1 = (Ret tt, s2) /\
    elements s2 this = elements s this /\
    Count this s2 = (Ret cnt, s2) /\
    wf s2 this = true.
Proof.
  intros Hwf Hcap Hcnt Hok. destruct (wf_Repr _ _ Hwf) as (o & R).
  set (xs := elements s this) in *. pose proof R as (Ho & Hn & _).
  rewrite (Capacity_Repr _ _ _ _ R) in Hcap. rewrite (Count_Repr _ _ _ _ R) in Hcnt.
  injection Hcap as <-. injection Hcnt as <-.
  unfold alloc_succeeds in Hok. rewrite Ho, <- Hn in Hok.
  destruct (Add_framed _ _ _ _ v R Hok) as (s1 & o1 & E1 & R1 & _ & _).
  destruct (RemoveAt_ok _ _ _ _ _ _ R1) as (s2 & E2 & R2).
  rewrite app_nil_r in R2. pose proof R1 as (Ho1 & Hn1 & _).
  rewrite length_app in Hn1. simpl in Hn1.
  exists s1, s2. split; [done|]. split.
  - rewrite (Get_subscript _ _ o1) by (done || lia).
    apply (subscript_ok _ _ o1 (xs ++ [v])); [done|].
    rewrite Nat2N.id. by apply list_lookup_middle.
  - split; [done|].
    by rewrite (Repr_elements _ _ _ _ R2), (Count_Repr _ _ _ _ R2), (Repr_wf _ _ _ _ R2).
Qed.

(** What an operation that involves no second list does to the store: nothing,
    or it leaves a well-formed list and the frame of the others. *)
Lemma single_list_effect s this o xs (op : mut_op) :
  Repr s this o xs -> single_list op = true ->
  exists r s',
    run_op this op s = (r, s') /\
    (s' = s \/
     exists o' xs',
       Repr s' this o' xs' /\ frame_of s s' this o o' /\
       (may_shrink op = false -> capacity o <= capacity o')).
Proof.
  intros R Hs. pose proof R as (Ho & Hn & Hc & Hm & Hd).
  assert (Hre : forall n, count o <= n ->
            exists r s', Resize this n s = (r, s') /\
              (s' = s \/ exists o' xs', Repr s' this o' xs' /\ frame_of s s' this o o' /\
                 capacity o' = n)).
  { intros n Hle. destruct (try_allocate (dataAllocator o) n) as [a'|] eqn:Ea.
    - exists (Ret tt), (resized s this o n a' xs).
      split; [by apply (Resize_ok _ _ _ _ _ _ R)|]. right.
      assert (Hmm : n <= max_size).
      { unfold try_allocate in Ea. destruct (N.ltb_spec max_size n); [done|lia]. }
      eexists. exists xs. split; [by apply Repr_resized|].
      split; [by apply frame_resized|done].
    - exists (Throw bad_alloc), s. split; [by apply (Resize_throw _ _ o xs)|by left]. }
  destruct op as [v|index|v|pred| |n| |other|other]; simpl in *; try done.
  - destruct ((count o <? capacity o) ||
              match try_allocate (dataAllocator o) (N.max (2 * capacity o) 1) with
              | Some _ => true | None => false end) eqn:Hok.
    + destruct (Add_framed _ _ _ _ v R Hok) as (s' & o' & E & R' & Hc' & F).
      exists (Ret tt), s'. split; [done|]. right. exists o', (xs ++ [v]).
      split; [done|]. split; [done|]. intros _. rewrite Hc'.
      destruct (count o <? capacity o); lia.
    + apply orb_false_iff in Hok as [Hfull Ha]. apply N.ltb_ge in Hfull.
      exists (Throw bad_alloc), s. split; [|by left].
      apply (Add_grow_throw _ _ o xs); [done|lia|].
      by destruct (try_allocate _ _).
  - destruct (N.lt_ge_cases index (count o)) as [Hlt|Hge].
    + destruct (lookup_lt_is_Some_2 xs (N.to_nat index)) as [x Hx]; [lia|].
      pose proof (take_drop_middle _ _ _ Hx) as Hsplit.
      assert (Hlen : length (take (N.to_nat index) xs) = N.to_nat index).
      { rewrite length_take. lia. }
      rewrite <- Hsplit in R.
      destruct (RemoveAt_framed _ _ _ _ _ _ R) as (s' & E & R' & F).
      rewrite Hlen, N2Nat.id in E. exists (Ret tt), s'. split; [done|]. right.
      eexists. eexists. split; [exact R'|]. split; [done|]. simpl. lia.
    + exists (Throw (out_of_range index)), s. split; [|by left].
      by apply (RemoveAt_throw _ _ o).
  - destruct (RemoveIf_framed _ _ _ _ (fun e => elem_eqb e v) R) as (s' & E & R' & F).
    exists (Ret tt), s'. split.
    { rewrite <- Remove_Obj in E. by rewrite (bind_ret _ _ _ _ _ E). }
    right. eexists. eexists. split; [exact R'|]. split; [done|]. simpl. lia.
  - destruct (RemoveIf_framed _ _ _ _ pred R) as (s' & E & R' & F).
    exists (Ret tt), s'. split; [by rewrite (bind_ret _ _ _ _ _ E)|].
    right. eexists. eexists. split; [exact R'|]. split; [done|]. simpl. lia.
  - exists (Ret tt), (cleared s this o). split; [by apply (Clear_ok _ _ _ xs)|].
    right. eexists. exists []. split; [by apply (Repr_cleared _ _ _ xs)|].
    split; [by apply (frame_cleared _ _ _ xs)|]. simpl. lia.
  - destruct (N.le_gt_cases n (capacity o)) as [Hle|Hgt].
    + exists (Ret tt), s. split; [by apply (Capacity_set_noop _ _ o)|by left].
    + rewrite (Capacity_set_grow _ _ o) by done.
      destruct (Hre n ltac:(lia)) as (r & s' & E & [->|(o' & xs' & R' & F & Hc')]).
      * exists r, s. split; [done|by left].
      * exists r, s'. split; [done|]. right. exists o', xs'.
        split; [done|]. split; [done|]. intros _. lia.
  - destruct (decide (capacity o = count o)) as [Heq|Hneq].
    + exists (Ret tt), s. split; [by apply (ShrinkToFit_noop _ _ o)|by left].
    + rewrite (ShrinkToFit_shrink _ _ o) by done.
      destruct (Hre (count o) ltac:(lia)) as (r & s' & E & [->|(o' & xs' & R' & F & Hc')]).
      * exists r, s. split; [done|by left].
      * exists r, s'. split; [done|]. right. exists o', xs'.
        split; [done|]. split; [done|]. done.
Qed.

(** X11: an operation on one list that involves no second list (Add,
    RemoveAt, Remove, RemoveIf, Clear, the capacity setter, ShrinkToFit),
    whatever its outcome, leaves every other list with a block of its own as
    it was: same object, same elements, invariant intact, blocks still
    separate. *)
Theorem mutation_leaves_other_lists s this l (op : mut_op) :
  this <> l ->
  wf s this = true -> wf s l = true -> separate s this l = true ->
  single_list op = true ->
  objs (run (run_op this op) s) !! l = objs s !! l /\
  elements (run (run_op this op) s) l = elements s l /\
  wf (run (run_op this op) s) l = true /\
  separate (run (run_op this op) s) this l = true.
Proof.
  intros Hne Hwt Hwl Hsep Hs.
  destruct (wf_Repr _ _ Hwt) as (o & R). destruct (wf_Repr _ _ Hwl) as (ol & Rl).
  destruct (single_list_effect _ _ _ _ op R Hs) as (r & s' & E & Heff).
  unfold run. rewrite E. simpl.
  destruct Heff as [->|(o' & xs' & R' & F & _)]; [done|].
  assert (Hd : disjoint_blocks o ol).
  { apply (separate_disjoint s this l); [done|by destruct R|by destruct Rl]. }
  destruct (frame_other _ _ _ _ _ _ _ _ F Hne Rl Hd) as [Rl' Hd'].
  rewrite (proj1 Rl'), (proj1 Rl), (Repr_elements _ _ _ _ Rl'), (Repr_wf _ _ _ _ Rl').
  by rewrite (disjoint_separate _ _ _ o' ol (proj1 R') (proj1 Rl') Hd').
Qed.

Lemma copy_assign_throws s this other o oo xs ys :
  this <> other -> Repr s this o xs -> Repr s other oo ys ->
  disjoint_blocks o oo ->
  capacity o < capacity oo -> try_allocate (dataAllocator o) (capacity oo) = None ->
  copy_assign this other s = (Throw bad_alloc, cleared s this o).
Proof.
  intros Hne R Ro Hsep Hgt Ea. rewrite (copy_assign_unfold _ _ _ Hne).
  rewrite (bind_ret _ _ _ _ _ (Clear_ok _ _ _ _ R)).
  pose proof (Repr_cleared _ _ _ _ R) as R1.
  pose proof (frame_cleared _ _ _ _ R) as F1.
  destruct (frame_other _ _ _ _ _ _ _ _ F1 Hne Ro Hsep) as [Ro1 _].
  rewrite (bind_ret _ _ _ _ _ (rd_capacity_ok _ _ _ (proj1 Ro1))).
  erewrite bind_throw; [done|].
  rewrite (Capacity_set_grow _ _ _ _ (proj1 R1)) by done.
  apply (Resize_throw _ _ _ [] _ R1); [simpl; lia|exact Ea].
Qed.

(** X14: the capacity never goes down under Add, RemoveAt, Remove, RemoveIf,
    Clear, the capacity setter or copy assignment, whether the operation
    succeeds or throws; only ShrinkToFit and move assignment may lower it. *)
Theorem capacity_never_decreases s this (op : mut_op) :
  wf s this = true -> operands_ok s this op = true -> may_shrink op = false ->
  exists c c',
    Capacity this s = (Ret c, s) /\
    Capacity this (run (run_op this op) s) = (Ret c', run (run_op this op) s) /\
    c <= c'.
Proof.
  intros Hwf Hops Hms. destruct (wf_Repr _ _ Hwf) as (o & R).
  exists (capacity o). rewrite (Capacity_Repr _ _ _ _ R).
  assert (Hsame : exists c', Capacity this s = (Ret c', s) /\ capacity o <= c').
  { exists (capacity o). by rewrite (Capacity_Repr _ _ _ _ R). }
  destruct (single_list op) eqn:Hs.
  - destruct (single_list_effect _ _ _ _ op R Hs) as (r & s' & E & Heff).
    unfold run. rewrite E. simpl.
    destruct Heff as [->|(o' & xs' & R' & _ & Hc')].
    + destruct Hsame as (c' & Ec & Hc). by exists c'.
    + exists (capacity o'). rewrite (Capacity_Repr _ _ _ _ R'). split; [done|]. split; [done|].
      by apply Hc'.
  - destruct op as [| | | | | | |other|other]; try done. simpl in *. clear Hms Hs.
    destruct (decide (this = other)) as [<-|Hne].
    { unfold run, copy_assign. rewrite decide_False by (intros Hx; by apply Hx). simpl.
      destruct Hsame as (c' & Ec & Hc). by exists c'. }
    unfold operand_ok in Hops.
    rewrite bool_decide_eq_false_2 in Hops by done. simpl in Hops.
    apply andb_prop in Hops as [Hwo Hsep].
    destruct (wf_Repr _ _ Hwo) as (oo & Ro).
    assert (Hd : disjoint_blocks o oo).
    { apply (separate_disjoint s this other); [done|by destruct R|by destruct Ro]. }
    destruct ((capacity oo <=? capacity o) ||
              match try_allocate (dataAllocator o) (capacity oo) with
              | Some _ => true | None => false end) eqn:Hok.
    + destruct (copy_assign_detailed _ _ _ _ _ _ _ Hne R Ro Hd Hok)
        as (s' & o' & E & Rt & _ & Hcap & _).
      unfold run. rewrite E. simpl. exists (capacity o').
      rewrite (Capacity_Repr _ _ _ _ Rt). split; [done|]. split; [done|]. lia.
    + apply orb_false_iff in Hok as [Hgt Ha]. apply N.leb_gt in Hgt.
      assert (Ea : try_allocate (dataAllocator o) (capacity oo) = None).
      { by destruct (try_allocate _ _). }
      unfold run. rewrite (copy_assign_throws _ _ _ _ _ _ _ Hne R Ro Hd Hgt Ea). simpl.
      pose proof (Repr_cleared _ _ _ _ R) as Rc. exists (capacity o).
      rewrite (Capacity_Repr _ _ _ _ Rc). simpl. split; [done|]. split; [done|]. lia.
Qed.

End Composition.

(** ** The further properties at concrete lists *)

Lemma Clear_keeps_capacity_only_witness :
  exists s',
    Clear 1%positive st_12345 = (Ret tt, s') /\
    elements s' 1%positive = [] /\
    Count 1%positive s' = (Ret 0, s') /\
    fst (Capacity 1%positive s') = fst (Capacity 1%positive st_12345) /\
    wf s' 1%positive = true.
Proof. apply (Clear_keeps_capacity_only st_12345 1%positive). reflexivity. Defined.

Lemma Get_checked_access_witness :
  exists n,
    Count 1%positive st_10_40 = (Ret n, st_10_40) /\
    (n <= 1 ->
     Get 1%positive 1 st_10_40 = (Throw (out_of_range 1), st_10_40) /\
     subscript 1%positive 1 st_10_40 = (Fault (BadRead 1), st_10_40)) /\
    (1 < n ->
     exists x,
       elements st_10_40 1%positive !! N.to_nat 1 = Some x /\
       Get 1%positive 1 st_10_40 = (Ret x, st_10_40) /\
       subscript 1%positive 1 st_10_40 = (Ret x, st_10_40)).
Proof. apply (Get_checked_access st_10_40 1%positive 1). reflexivity. Defined.

Lemma FindIf_first_match_witness :
  exists r,
    FindIf 1%positive is_2_or_4 st_12345 = (Ret r, st_12345) /\
    match r with
    | Some i =>
        exists x, elements st_12345 1%positive !! N.to_nat i = Some x /\
          is_2_or_4 x = true /\
          forall j y, (j < N.to_nat i)%nat ->
                      elements st_12345 1%positive !! j = Some y -> is_2_or_4 y = false
    | None => forall x, x ∈ elements st_12345 1%positive -> is_2_or_4 x = false
    end.
Proof. apply (FindIf_first_match st_12345 1%positive is_2_or_4). reflexivity. Defined.

Lemma Find_first_equal_witness :
  exists r,
    Find 1%positive 30%Z st_10_40 = (Ret r, st_10_40) /\
    match r with
    | Some i =>
        exists x, elements st_10_40 1%positive !! N.to_nat i = Some x /\
          elem_eqb x 30%Z = true /\
          forall j y, (j < N.to_nat i)%nat ->
                      elements st_10_40 1%positive !! j = Some y -> elem_eqb y 30%Z = false
    | None => forall x, x ∈ elements st_10_40 1%positive -> elem_eqb x 30%Z = false
    end.
Proof. apply (Find_first_equal st_10_40 1%positive 30%Z). reflexivity. Defined.

Lemma Print_nonempty_witness :
  Print 1%positive st_12345 =
  (Ret ("(" +:+ String.concat ", " (map show (elements st_12345 1%positive)) +:+ ")"
          +:+ String (Ascii.ascii_of_nat 10) "")%string, st_12345).
Proof.
  apply (Print_nonempty st_12345 1%positive); [reflexivity|].
  vm_compute. discriminate.
Defined.

Lemma copy_assign_copies_witness :
  exists s',
    copy_assign 1%positive 2%positive st_two = (Ret tt, s') /\
    elements s' 1%positive = elements st_two 2%positive /\
    elements s' 2%positive = elements st_two 2%positive /\
    objs s' !! 2%positive = objs st_two !! 2%positive /\
    fst (Count 1%positive s') = fst (Count 2%positive st_two) /\
    Capacity 1%positive s' = (Ret (N.max 2 4), s') /\
    wf s' 1%positive = true /\ wf s' 2%positive = true /\
    separate s' 1%positive 2%positive = true.
Proof.
  apply (copy_assign_copies st_two 1%positive 2%positive 2 4);
    [discriminate|reflexivity..].
Defined.

Lemma swap_exchanges_witness :
  exists s',
    swap 1%positive 2%positive st_two = (Ret tt, s') /\
    heap s' = heap st_two /\
    objs s' !! 1%positive = objs st_two !! 2%positive /\
    objs s' !! 2%positive = objs st_two !! 1%positive /\
    elements s' 1%positive = elements st_two 2%positive /\
    elements s' 2%positive = elements st_two 1%positive /\
    wf s' 1%positive = true /\ wf s' 2%positive = true /\
    swap 1%positive 2%positive s' = (Ret tt, st_two).
Proof. apply (swap_exchanges st_two 1%positive 2%positive); reflexivity. Defined.

Lemma destructor_releases_witness :
  exists s',
    List_destroy 1%positive st_two = (Ret tt, s') /\
    objs s' !! 1%positive = None /\
    (forall l, l <> 1%positive -> objs s' !! l = objs st_two !! l) /\
    (forall p, rd_data 1%positive st_two = (Ret (Some p), st_two) ->
       heap s' !! p = None /\ forall q, q <> p -> heap s' !! q = heap st_two !! q) /\
    (rd_data 1%positive st_two = (Ret None, st_two) -> heap s' = heap st_two) /\
    (forall l, l <> 1%positive -> wf st_two l = true ->
       separate st_two 1%positive l = true ->
       wf s' l = true /\ elements s' l = elements st_two l).
Proof. apply (destructor_releases st_two 1%positive). reflexivity. Defined.

Lemma Add_appends_witness :
  exists s',
    Add 1%positive (Copy (Obj 6%Z)) st_12345 = (Ret tt, s') /\
    elements s' 1%positive = elements st_12345 1%positive ++ [6%Z] /\
    Count 1%positive s' = (Ret (5 + 1), s') /\
    Capacity 1%positive s' = (Ret (if 5 <? 8 then 8 else N.max (2 * 8) 1), s') /\
    wf s' 1%positive = true.
Proof. apply (Add_appends st_12345 1%positive 6%Z 8 5); reflexivity. Defined.

Lemma Add_growth_is_bounded_witness :
  exists s' cap,
    add_all 1%positive [1; 2; 3]%Z st_empty = (Ret tt, s') /\
    Count 1%positive s' = (Ret (N.of_nat (length [1; 2; 3]%Z)), s') /\
    Capacity 1%positive s' = (Ret cap, s') /\
    N.of_nat (length [1; 2; 3]%Z) <= cap /\ cap < 2 * N.of_nat (length [1; 2; 3]%Z).
Proof.
  apply (Add_growth_is_bounded st_empty 1%positive [1; 2; 3]%Z).
  - reflexivity.
  - reflexivity.
  - intros a n. simpl. discriminate.
  - vm_compute. discriminate.
  - discriminate.
Defined.

Lemma mutation_leaves_other_lists_witness :
  objs (run (run_op 1%positive (OpRemoveAt 0)) st_two) !! 2%positive =
    objs st_two !! 2%positive /\
  elements (run (run_op 1%positive (OpRemoveAt 0)) st_two) 2%positive =
    elements st_two 2%positive /\
  wf (run (run_op 1%positive (OpRemoveAt 0)) st_two) 2%positive = true /\
  separate (run (run_op 1%positive (OpRemoveAt 0)) st_two) 1%positive 2%positive = true.
Proof.
  apply (mutation_leaves_other_lists st_two 1%positive 2%positive (OpRemoveAt 0));
    [discriminate|reflexivity..].
Defined.

Lemma RemoveIf_twice_witness :
  exists k s',
    RemoveIf 1%positive is_2_or_4 st_12345 = (Ret k, s') /\
    (forall x, x ∈ elements s' 1%positive -> is_2_or_4 x = false) /\
    RemoveIf 1%positive is_2_or_4 s' = (Ret 0, s').
Proof. apply (RemoveIf_twice st_12345 1%positive is_2_or_4). reflexivity. Defined.

Lemma Add_then_RemoveAt_witness :
  exists s1 s2,
    Add 1%positive (Copy (Obj 9%Z)) st_11 = (Ret tt, s1) /\
    Get 1%positive 2 s1 = (Ret 9%Z, s1) /\
    RemoveAt 1%positive 2 s1 = (Ret tt, s2) /\
    elements s2 1%positive = elements st_11 1%positive /\
    Count 1%positive s2 = (Ret 2, s2) /\
    wf s2 1%positive = true.
Proof. apply (Add_then_RemoveAt st_11 1%positive 9%Z 2 2); reflexivity. Defined.

Lemma capacity_never_decreases_witness :
  exists c c',
    Capacity 1%positive st_pool = (Ret c, st_pool) /\
    Capacity 1%positive (run (run_op 1%positive (OpCopyAssign 2%positive)) st_pool) =
      (Ret c', run (run_op 1%positive (OpCopyAssign 2%positive)) st_pool) /\
    c <= c'.
Proof.
  apply (capacity_never_decreases st_pool 1%positive (OpCopyAssign 2%positive));
    reflexivity.
Defined.

Lemma build_and_destroy_restores_witness :
  build_and_destroy 1%positive [1; 2; 3]%Z (@empty_state Z unit) = (Ret tt, empty_state).
Proof.
  apply (build_and_destroy_restores empty_state 1%positive [1; 2; 3]%Z).
  - reflexivity.
  - intros a n. simpl. discriminate.
  - vm_compute. discriminate.
Defined.

Lemma move_assign_transfers_block_witness :
  exists s',
    move_assign 1%positive 2%positive st_two = (Ret tt, s') /\
    fst (rd_data 1%positive s') = fst (rd_data 2%positive st_two) /\
    (forall p, rd_data 1%positive st_two = (Ret (Some p), st_two) ->
       heap s' !! p = None /\ forall q, q <> p -> heap s' !! q = heap st_two !! q) /\
    (rd_data 1%positive st_two = (Ret None, st_two) -> heap s' = heap st_two) /\
    (forall l, l <> 1%positive -> l <> 2%positive -> objs s' !! l = objs st_two !! l).
Proof.
  apply (move_assign_transfers_block st_two 1%positive 2%positive);
    [discriminate|reflexivity..].
Defined.

(** ** Arguments that refer into the list, constructors that throw *)

Section ReferenceArguments.
Context {T : Type} `{Element T} {A : Type} `{Allocator A}.
Local Abbreviation State := (@State T A).
Local Abbreviation ListObj := (@ListObj A).
Implicit Types (s : State) (o oo : ListObj) (this other : loc) (p q : addr).
Implicit Types (xs ys : list T).

(** Up to its second statement [Add] has at most grown the list. *)
Lemma Add_prefix s this o xs :
  Repr s this o xs ->
  (count o <? capacity o) ||
    match try_allocate (dataAllocator o) (N.max (2 * capacity o) 1) with
    | Some _ => true | None => false end = true ->
  exists s1 o1,
    Repr s1 this o1 xs /\ count o1 < capacity o1 /\
    capacity o1 = (if count o <? capacity o then capacity o else N.max (2 * capacity o) 1) /\
    (count o < capacity o -> s1 = s /\ o1 = o) /\
    (count o = capacity o ->
     forall p, data o = Some p -> heap s1 !! p = None) /\
    forall args, Add this args s = add_rest this args s1.
Proof.
  intros R Hok. pose proof R as (Ho & Hn & Hc & Hm & Hd).
  destruct (N.ltb_spec (count o) (capacity o)) as [Hlt|Hge].
  - exists s, o. split; [done|]. split; [done|]. split; [done|]. split; [done|].
    split; [lia|]. intros args. unfold Add, add_rest. exec_field. exec_field.
    rewrite decide_False by lia. by erewrite bind_ret by done.
  - simpl in Hok. assert (Heq : count o = capacity o) by lia.
    destruct (try_allocate (dataAllocator o) (N.max (2 * capacity o) 1)) as [a'|] eqn:Ea;
      [|done].
    destruct (grown_capacity _ Hm) as [Eg Hg].
    assert (Hmax : N.max (2 * capacity o) 1 <= max_size).
    { unfold try_allocate in Ea.
      destruct (N.ltb_spec max_size (N.max (2 * capacity o) 1)); [done|lia]. }
    assert (Hcn : count o <= N.max (2 * capacity o) 1) by lia.
    pose proof (Repr_resized _ _ _ _ _ a' R Hcn Hmax) as R1.
    eexists. eexists. split; [exact R1|]. split; [simpl; lia|]. split; [done|].
    split; [lia|]. split.
    + intros _ p Hp. unfold resized. simpl. rewrite Hp.
      pose proof (fresh_addr_free s) as Hf. rewrite Hp in Hd.
      rewrite lookup_insert_ne by congruence. apply lookup_delete_eq.
    + intros args. unfold Add, add_rest. exec_field. exec_field.
      rewrite decide_True by done. rewrite Eg.
      erewrite bind_ret; [done|].
      rewrite (Capacity_set_grow _ _ _ _ Ho Hg).
      apply (Resize_ok _ _ _ _ _ _ R); [lia|done].
Qed.

Lemma block_of_split xs cap i x :
  xs !! i = Some x ->
  block_of xs cap =
  (Some <$> take i xs) ++ Some x ::
    ((Some <$> drop (S i) xs) ++ replicate (N.to_nat cap - length xs) None).
Proof.
  intros Hx. unfold block_of. rewrite <- (take_drop_middle _ _ _ Hx) at 1.
  rewrite fmap_app. simpl. by rewrite <- app_assoc.
Qed.

(** The reference [l[index]] of a non-empty list. *)
Lemma subscript_ref_Repr s this o xs p index :
  Repr s this o xs -> data o = Some p ->
  subscript_ref this index s = (Ret (Elem (Some p) index), s).
Proof.
  intros (Ho & _) Ed. unfold subscript_ref. exec_field. by rewrite Ed.
Qed.

(** X18: [Add(l[index])] on a list with room, the argument being an element
    of the list itself, appends a copy of that element. *)
Theorem Add_of_own_element_with_room s this index cap cnt :
  wf s this = true ->
  Capacity this s = (Ret cap, s) -> Count this s = (Ret cnt, s) ->
  index < cnt -> cnt < cap ->
  exists x s',
    elements s this !! N.to_nat index = Some x /\
    (r <- subscript_ref this index ;; Add this (Copy r)) s = (Ret tt, s') /\
    elements s' this = elements s this ++ [x] /\
    wf s' this = true.
Proof.
  intros Hwf Hcap Hcnt Hidx Hlt. destruct (wf_Repr _ _ Hwf) as (o & R).
  set (xs := elements s this) in *. pose proof R as (Ho & Hn & Hc & Hm & Hd).
  rewrite (Capacity_Repr _ _ _ _ R) in Hcap. rewrite (Count_Repr _ _ _ _ R), <- Hn in Hcnt.
  injection Hcap as <-. injection Hcnt as <-.
  destruct (data o) as [p|] eqn:Ed; [|lia].
  rewrite (bind_ret _ _ _ _ _ (subscript_ref_Repr _ _ _ _ _ index R Ed)).
  destruct (lookup_lt_is_Some_2 xs (N.to_nat index)) as [x Hx]; [lia|].
  exists x.
  destruct (add_tail_ok _ _ _ _ x R Hlt) as (s' & E & R').
  exists s'. split; [done|].
  rewrite (Repr_elements _ _ _ _ R'), (Repr_wf _ _ _ _ R'). split; [|done].
  rewrite <- E. unfold Add, add_tail. exec_field. exec_field.
  rewrite decide_False by lia. erewrite bind_ret by done.
  exec_field. exec_field. exec_field. rewrite Ed. unfold construct_from, deref.
  erewrite bind_ret; cycle 1.
  { apply (read_at_ok _ p (Some <$> take (N.to_nat index) xs) x
             ((Some <$> drop (S (N.to_nat index)) xs)
                ++ replicate (N.to_nat (capacity o) - length xs) None)).
    - simpl. rewrite Hd. f_equal. by apply block_of_split.
    - rewrite length_fmap, length_take. lia. }
  symmetry. exec_field. exec_field. exec_field. by rewrite Ed.
Qed.

(** X19: [Add(l[index])] on a full list whose growth is granted: the list is
    reallocated first, and the constructor then reads the element in the
    block that has just been freed. *)
Theorem Add_of_own_element_when_full s this index cap :
  wf s this = true ->
  Capacity this s = (Ret cap, s) -> Count this s = (Ret cap, s) ->
  index < cap ->
  alloc_succeeds s this (N.max (2 * cap) 1) = true ->
  exists s',
    (r <- subscript_ref this index ;; Add this (Copy r)) s = (Fault (BadRead index), s').
Proof.
  intros Hwf Hcap Hcnt Hidx Hok. destruct (wf_Repr _ _ Hwf) as (o & R).
  set (xs := elements s this) in *. pose proof R as (Ho & Hn & Hc & Hm & Hd).
  rewrite (Capacity_Repr _ _ _ _ R) in Hcap. rewrite (Count_Repr _ _ _ _ R), <- Hn in Hcnt.
  injection Hcap as <-. injection Hcnt as Heq.
  destruct (data o) as [p|] eqn:Ed; [|lia].
  rewrite (bind_ret _ _ _ _ _ (subscript_ref_Repr _ _ _ _ _ index R Ed)).
  unfold alloc_succeeds in Hok. rewrite Ho in Hok.
  assert (Hok' : (count o <? capacity o) ||
            match try_allocate (dataAllocator o) (N.max (2 * capacity o) 1) with
            | Some _ => true | None => false end = true).
  { rewrite Hok. apply orb_true_r. }
  destruct (Add_prefix _ _ _ _ R Hok') as (s1 & o1 & R1 & Hlt1 & _ & _ & Hfreed & Eadd).
  pose proof R1 as (Ho1 & _).
  eexists. rewrite Eadd. unfold add_rest. exec_field. exec_field. exec_field.
  unfold construct_from, deref. apply bind_fault.
  unfold read_at, slot. simpl. by rewrite (Hfreed Heq p Ed).
Qed.

(** X20: when the constructor of [T] throws on the arguments of [Add], the
    exception leaves the list with [Count()] already raised by 1 over a slot
    that holds no element: the invariant no longer holds. *)
Theorem Add_rejected_arguments s this cap cnt :
  wf s this = true ->
  Capacity this s = (Ret cap, s) -> Count this s = (Ret cnt, s) ->
  (cnt <? cap) || alloc_succeeds s this (N.max (2 * cap) 1) = true ->
  exists s',
    Add this Rejected s = (Throw element_exception, s') /\
    Count this s' = (Ret (cnt + 1), s') /\
    subscript this cnt s' = (Fault (BadRead cnt), s') /\
    wf s' this = false.
Proof.
  intros Hwf Hcap Hcnt Hok. destruct (wf_Repr _ _ Hwf) as (o & R).
  set (xs := elements s this) in *. pose proof R as (Ho & Hn & _).
  rewrite (Capacity_Repr _ _ _ _ R) in Hcap. rewrite (Count_Repr _ _ _ _ R), <- Hn in Hcnt.
  injection Hcap as <-. injection Hcnt as <-.
  unfold alloc_succeeds in Hok. rewrite Ho in Hok.
  destruct (Add_prefix _ _ _ _ R Hok) as (s1 & o1 & R1 & Hlt1 & _ & _ & _ & Eadd).
  pose proof R1 as (Ho1 & Hn1 & Hc1 & Hm1 & Hd1). pose proof max_size_lt_mod.
  assert (Ecnt : count o1 = count o) by lia.
  destruct (data o1) as [p|] eqn:Ed1; [|lia].
  set (o2 := mkList (data o1) (capacity o1) (count o1 + 1) (dataAllocator o1)).
  exists (mkState (heap s1) (<[this := o2]> (objs s1))).
  assert (Ho2 : objs (mkState (heap s1) (<[this := o2]> (objs s1))) !! this = Some o2).
  { simpl. apply lookup_insert_eq. }
  split; [|split; [|split]].
  - rewrite Eadd. unfold add_rest. exec_field. exec_field.
    unfold size_add. rewrite N.mod_small by lia.
    erewrite bind_ret by (apply wr_count_ok; obj_lookup). done.
  - unfold Count. rewrite (rd_count_ok _ _ _ Ho2). simpl. by rewrite Ecnt.
  - unfold subscript. rewrite (bind_ret _ _ _ _ _ (rd_data_ok _ _ _ Ho2)).
    unfold read_at, slot. simpl. rewrite Ed1, Hd1. unfold block_of.
    rewrite lookup_app_r by (rewrite length_fmap; lia).
    destruct (replicate _ _ !! _) as [y|] eqn:Ey; [|done].
    apply lookup_replicate in Ey as [-> _]. done.
  - unfold wf. rewrite Ho2. simpl. rewrite Ed1, Hd1.
    replace (N.to_nat (count o1 + 1)) with (S (length xs)) by lia.
    assert (Et : take (S (length xs)) (block_of xs (capacity o1)) = (Some <$> xs) ++ [None]).
    { unfold block_of. rewrite take_app_ge by (rewrite length_fmap; lia).
      rewrite length_fmap. replace (S (length xs) - length xs)%nat with 1%nat by lia.
      f_equal. rewrite (replicate_pos _ (N.to_nat (capacity o1) - length xs)) by lia. done. }
    rewrite Et, forallb_app. simpl. by rewrite !andb_false_r.
Qed.

End ReferenceArguments.

(** ** A copy constructor that throws during reallocation *)

Section ElementExceptions.
Context {T : Type} `{Element T} {A : Type} `{Allocator A}.
Local Abbreviation State := (@State T A).
Local Abbreviation ListObj := (@ListObj A).
Implicit Types (s : State) (o oo : ListObj) (this other : loc) (p q : addr).
Implicit Types (xs ys : list T) (copy : T -> M State T).

(** With a copy constructor that always returns the copy, [Resize_by] is
    [Resize]. *)
Lemma Resize_by_ret this n : Resize_by (fun v => ret v) this n = Resize this n.
Proof. reflexivity. Qed.

(** The relocation loop up to the element whose copy throws. *)
Lemma relocate_by_throw copy xs1 : forall x xs2 s p q preO postO preN rawN postN i,
  p <> q ->
  heap s !! p = Some (preO ++ (Some <$> xs1 ++ x :: xs2) ++ postO) ->
  heap s !! q = Some (preN ++ rawN ++ postN) ->
  length rawN = length (xs1 ++ x :: xs2) ->
  N.to_nat i = length preO -> length preN = length preO ->
  (forall v s', v ∈ xs1 -> copy v s' = (Ret v, s')) ->
  (forall s', copy x s' = (Throw element_exception, s')) ->
  for_range (length (xs1 ++ x :: xs2)) i (fun i =>
    v <- read_at (Some p) i ;;
    w <- copy v ;;
    construct_at (Some q) i w ;;;
    destroy_at (Some p) i) s =
  (Throw element_exception,
   mkState (<[p := preO ++ replicate (length xs1) None ++ (Some <$> x :: xs2) ++ postO]>
              (<[q := preN ++ (Some <$> xs1) ++ drop (length xs1) rawN ++ postN]> (heap s)))
     (objs s)).
Proof.
  induction xs1 as [|y xs1 IH];
    intros x xs2 s p q preO postO preN rawN postN i Hpq Ep Eq Hr Hi Hn Hret Hthrow.
  - simpl in *.
    rewrite ?bind_assoc, (bind_ret _ _ _ _ _ (read_at_ok _ _ _ _ _ _ Ep Hi)).
    rewrite ?bind_assoc, (bind_throw _ _ _ _ _ (Hthrow s)).
    destruct s as [h ob]; simpl in *. rewrite drop_0.
    rewrite (insert_id h q) by done. by rewrite insert_id.
  - destruct rawN as [|r rawN]; [done|]. simpl in Hr, Ep. simpl.
    rewrite ?bind_assoc, (bind_ret _ _ _ _ _ (read_at_ok _ _ _ _ _ _ Ep Hi)).
    rewrite ?bind_assoc, (bind_ret _ _ _ _ _ (Hret y s ltac:(left))).
    assert (Hi' : N.to_nat i = length preN) by lia.
    rewrite ?bind_assoc,
      (bind_ret _ _ _ _ _ (construct_at_ok _ q preN r y (rawN ++ postN) i Eq Hi')).
    set (s1 := mkState _ _).
    assert (Ep1 : heap s1 !! p =
                  Some (preO ++ Some y :: (Some <$> xs1 ++ x :: xs2) ++ postO)).
    { subst s1. simpl. by rewrite lookup_insert_ne. }
    rewrite ?bind_assoc, (bind_ret _ _ _ _ _ (destroy_at_ok _ _ _ _ _ _ Ep1 Hi)).
    set (s2 := mkState _ _).
    rewrite (IH x xs2 s2 p q (preO ++ [None]) postO (preN ++ [Some y]) rawN postN (N.succ i)).
    + subst s2 s1. simpl. f_equal. f_equal.
      apply map_eq. intros k. rewrite !lookup_insert.
      repeat case_decide; subst; try done; by rewrite <- ?app_assoc.
    + done.
    + subst s2. simpl. rewrite lookup_insert_eq. by rewrite <- app_assoc.
    + subst s2 s1. simpl. rewrite lookup_insert_ne by done. rewrite lookup_insert_eq.
      by rewrite <- app_assoc.
    + lia.
    + rewrite length_app. simpl. lia.
    + rewrite !length_app. simpl. lia.
    + intros v s' Hv. apply Hret. by right.
    + done.
Qed.

(** X21: when the copy constructor of [T] throws on an element during a
    reallocation that was granted, [Resize] ends with that exception; count
    and capacity are as before, but every element in front of the one that
    threw has been destroyed in the list's block, so those slots hold no
    element and the invariant is lost unless the first element threw. *)
Theorem Resize_copy_throws copy s this n xs1 x xs2 :
  wf s this = true ->
  elements s this = xs1 ++ x :: xs2 ->
  (forall v s', v ∈ xs1 -> copy v s' = (Ret v, s')) ->
  (forall s', copy x s' = (Throw element_exception, s')) ->
  N.of_nat (length (xs1 ++ x :: xs2)) <= n ->
  alloc_succeeds s this n = true ->
  exists s',
    Resize_by copy this n s = (Throw element_exception, s') /\
    Count this s' = (Ret (N.of_nat (length (xs1 ++ x :: xs2))), s') /\
    fst (Capacity this s') = fst (Capacity this s) /\
    (forall i, (i < length xs1)%nat ->
       subscript this (N.of_nat i) s' = (Fault (BadRead (N.of_nat i)), s')) /\
    wf s' this = match xs1 with [] => true | _ :: _ => false end.
Proof.
  intros Hwf Hxs Hret Hthrow Hle Hok. destruct (wf_Repr _ _ Hwf) as (o & R).
  rewrite Hxs in R. pose proof R as (Ho & Hn & Hc & Hm & Hd).
  unfold alloc_succeeds in Hok. rewrite Ho in Hok.
  destruct (try_allocate (dataAllocator o) n) as [a'|] eqn:Ea; [|done].
  rewrite (Capacity_Repr _ _ _ _ R). simpl.
  destruct (data o) as [p|] eqn:Ed; [|rewrite length_app in Hn; simpl in Hn; lia].
  pose proof (fresh_addr_free s) as Hq. set (q := fresh (dom (heap s))) in *.
  assert (Hpq : p <> q) by congruence.
  set (o1 := mkList (data o) (capacity o) (count o) a').
  set (blk := replicate (length xs1) None ++ (Some <$> x :: xs2) ++
              replicate (N.to_nat (capacity o) - length (xs1 ++ x :: xs2)) None).
  set (s' := mkState
               (<[p := blk]>
                  (<[q := (Some <$> xs1) ++
                          drop (length xs1) (replicate (length (xs1 ++ x :: xs2)) None) ++
                          replicate (N.to_nat n - length (xs1 ++ x :: xs2)) None]>
                     (<[q := replicate (N.to_nat n) None]> (heap s))))
               (<[this := o1]> (objs s))).
  assert (Ho' : objs s' !! this = Some o1) by (subst s'; simpl; apply lookup_insert_eq).
  exists s'. split; [|split; [|split; [|split]]].
  - unfold Resize_by, for_loop. exec_field.
    destruct (N.ltb_spec n (count o)); [lia|].
    rewrite (bind_ret _ _ _ _ _ (alloc_block_ok _ _ _ _ _ Ho Ea)). fold q.
    exec_field. exec_field. subst s' o1. cbn [data count capacity].
    rewrite Hn, N.sub_0_r, Nat2N.id, Ed.
    apply bind_throw.
    match goal with |- _ ?s0 = _ =>
      rewrite (relocate_by_throw copy xs1 x xs2 s0 p q []
                 (replicate (N.to_nat (capacity o) - length (xs1 ++ x :: xs2)) None)
                 [] (replicate (length (xs1 ++ x :: xs2)) None)
                 (replicate (N.to_nat n - length (xs1 ++ x :: xs2)) None) 0)
    end; simpl; try done.
    + by rewrite lookup_insert_ne.
    + rewrite lookup_insert_eq. f_equal. rewrite <- replicate_add. f_equal. lia.
    + by rewrite length_replicate.
  - unfold Count. rewrite (rd_count_ok _ _ _ Ho'). simpl. by rewrite Hn.
  - unfold Capacity. by rewrite (rd_capacity_ok _ _ _ Ho').
  - intros i Hi. unfold subscript.
    rewrite (bind_ret _ _ _ _ _ (rd_data_ok _ _ _ Ho')). simpl. rewrite Ed.
    unfold read_at, slot. subst s'. cbn [heap]. rewrite lookup_insert_eq, Nat2N.id.
    subst blk. rewrite lookup_app_l by (rewrite length_replicate; lia).
    by rewrite lookup_replicate_2.
  - unfold wf. subst s' o1. cbn [heap objs data count capacity].
    rewrite lookup_insert_eq. cbn [heap objs data count capacity].
    rewrite Ed, lookup_insert_eq, Hn, Nat2N.id.
    destruct xs1 as [|y xs1].
    + subst blk. simpl.
      change (Some x :: (Some <$> xs2) ++ ?r) with (block_of (x :: xs2) (capacity o)).
      pose proof (Repr_wf _ _ _ _ R) as Hw. unfold wf in Hw.
      rewrite Ho, Ed, Hd, Hn, Nat2N.id in Hw. exact Hw.
    + subst blk. simpl. by rewrite !andb_false_r.
Qed.

End ElementExceptions.

(** C7 (defect): with the list [[10, 20, 30, 40]] full, [l.Add(l[0])] grows
    the list and then builds the new element from slot 0 of the block it has
    freed. *)
Theorem Add_first_element_of_full_list :
  elements st_10_40 1%positive = [10; 20; 30; 40]%Z /\
  fst (Capacity 1%positive st_10_40) = Ret 4 /\
  fst ((r <- subscript_ref 1%positive 0 ;; Add 1%positive (Copy r)) st_10_40) =
    Fault (BadRead 0).
Proof. vm_compute. repeat split. Qed.

(** [l.Remove(l[0])] on [[1, 2, 1, 2]]: the compaction overwrites slot 0, the
    value compared against changes from 1 to 2, and [[2, 1]] is left. *)
Example Remove_of_own_element :
  elements st_1212 1%positive = [1; 2; 1; 2]%Z /\
  (let r := (v <- subscript_ref 1%positive 0 ;; Remove 1%positive v) st_1212 in
   fst r = Ret 2 /\ elements (snd r) 1%positive = [2; 1]%Z) /\
  (let r := Remove 1%positive (Obj 1%Z) st_1212 in
   fst r = Ret 2 /\ elements (snd r) 1%positive = [2; 2]%Z).
Proof. vm_compute. repeat split. Qed.

Lemma Add_of_own_element_with_room_witness :
  exists x s',
    elements st_12345 1%positive !! N.to_nat 3 = Some x /\
    (r <- subscript_ref 1%positive 3 ;; Add 1%positive (Copy r)) st_12345 = (Ret tt, s') /\
    elements s' 1%positive = elements st_12345 1%positive ++ [x] /\
    wf s' 1%positive = true.
Proof.
  apply (Add_of_own_element_with_room st_12345 1%positive 3 8 5); reflexivity.
Defined.

Lemma Add_of_own_element_when_full_witness :
  exists s',
    (r <- subscript_ref 1%positive 2 ;; Add 1%positive (Copy r)) st_10_40 =
      (Fault (BadRead 2), s').
Proof.
  apply (Add_of_own_element_when_full st_10_40 1%positive 2 4); reflexivity.
Defined.

Lemma Add_rejected_arguments_witness :
  exists s',
    Add 1%positive Rejected st_10_40 = (Throw element_exception, s') /\
    Count 1%positive s' = (Ret (4 + 1), s') /\
    subscript 1%positive 4 s' = (Fault (BadRead 4), s') /\
    wf s' 1%positive = false.
Proof.
  apply (Add_rejected_arguments st_10_40 1%positive 4 4); reflexivity.
Defined.

Lemma Resize_copy_throws_witness :
  exists s',
    Resize_by (copy_or_throw (Z.eqb 30)) 1%positive 8 st_10_40 =
      (Throw element_exception, s') /\
    Count 1%positive s' = (Ret (N.of_nat (length ([10; 20] ++ 30 :: [40])%Z)), s') /\
    fst (Capacity 1%positive s') = fst (Capacity 1%positive st_10_40) /\
    (forall i, (i < length [10; 20]%Z)%nat ->
       subscript 1%positive (N.of_nat i) s' = (Fault (BadRead (N.of_nat i)), s')) /\
    wf s' 1%positive = false.
Proof.
  apply (Resize_copy_throws (copy_or_throw (Z.eqb 30)) st_10_40 1%positive 8
           [10; 20]%Z 30%Z [40]%Z).
  - reflexivity.
  - reflexivity.
  - intros v s' Hv.
    repeat (apply elem_of_cons in Hv as [->|Hv]; [reflexivity|]).
    by apply elem_of_nil in Hv.
  - reflexivity.
  - vm_compute. discriminate.
  - reflexivity.
Defined.
